(** * ClusterQuantification: cluster counts inside binary masks

    A shallow embedding of [quantify_clusters.py] (HeilemannLab,
    ClusterQuantification) together with the properties its design
    document states about it.

    Conventions of the embedding.

    - A NumPy floating-point scalar is a [np_float]: either the rational
      number a finite double denotes, or one of the IEEE special values.
      A product, a quotient or a conversion from an integer is rounded
      to the nearest double, ties to even, and overflows to an infinity,
      as in IEEE 754 binary64 arithmetic ([round64]); [np.round] and
      [int] are exact on doubles.  The two zeros are not told apart: the
      zero divisors of this program are all the positive zero.
    - A 2-D array is the list of its rows.  Python integers are [Z].
    - A Python exception is a constructor of [py_error]; a computation
      that may raise returns a [result]. *)

From Stdlib Require Import ZArith QArith Qround Qabs Qpower Lia Lqa Bool Ascii String.
From stdpp Require Import base list strings gmap.

Local Open Scope Z_scope.

(* ===================================================================== *)
(** ** Exceptions and fallible computations                               *)
(* ===================================================================== *)

Inductive py_error : Type :=
| IndexError        (* sequence or array index out of range *)
| ValueError        (* int(nan), unpacking of an empty zip *)
| OverflowError     (* int(inf) *)
| KeyError          (* table or column missing from the container *)
| OSError           (* file unreadable or image undecodable *)
| TypeError         (* an object of the wrong kind *)
| ZeroDivisionError.

Inductive result (A : Type) : Type :=
| Ok (a : A)
| Raise (e : py_error).

Arguments Ok {A} a.
Arguments Raise {A} e.

Definition rbind {A B} (r : result A) (k : A -> result B) : result B :=
  match r with
  | Ok a => k a
  | Raise e => Raise e
  end.

Notation "'let!' x ':=' r 'in' k" := (rbind r (fun x => k))
  (at level 10, x pattern, r at level 100, k at level 200).

Definition is_ok {A} (r : result A) : bool :=
  match r with Ok _ => true | Raise _ => false end.

(* ===================================================================== *)
(** ** Floating-point scalars                                             *)
(* ===================================================================== *)

Inductive np_float : Type :=
| Finite (q : Q)
| PosInf
| NegInf
| NaN.

(** Equality of floats as values: finite floats are compared as rationals. *)
Definition feq (a b : np_float) : Prop :=
  match a, b with
  | Finite p, Finite q => (p == q)%Q
  | PosInf, PosInf | NegInf, NegInf | NaN, NaN => True
  | _, _ => False
  end.

(** [a <= b] on floats; every comparison with NaN is false. *)
Definition fle (a b : np_float) : Prop :=
  match a, b with
  | NaN, _ | _, NaN => False
  | NegInf, _ | _, PosInf => True
  | Finite p, Finite q => (p <= q)%Q
  | _, _ => False
  end.

Definition is_finite (a : np_float) : bool :=
  match a with Finite _ => true | _ => false end.

(** Sign of a rational as a comparison with zero. *)
Definition Qsign (q : Q) : comparison := (q ?= 0)%Q.

(** Nearest integer, ties to the even neighbour: what [np.round] (that
    is, [rint]) computes on a finite value. *)
Definition round_half_even (q : Q) : Z :=
  let f := Qfloor q in
  match (q - inject_Z f ?= 1 # 2)%Q with
  | Lt => f
  | Gt => f + 1
  | Eq => if Z.even f then f else f + 1
  end.

(** [2^e], for any integer [e]. *)
Definition pow2 (e : Z) : Q := Qpower 2 e.

(** For a positive rational [q], the exponent [e] with
    [2^e <= q < 2^(e+1)]. *)
Definition binade (q : Q) : Z :=
  let e := Z.log2 (Qnum q) - Z.log2 (Zpos (Qden q)) in
  if Qle_bool (pow2 e) q then e else e - 1.

(** The exponent of the unit in the last place of the doubles around a
    positive [q]: 53 significant bits, and no exponent below -1022. *)
Definition quantum (q : Q) : Z := Z.max (binade q) (-1022) - 52.

(** A positive rational rounded to a multiple of its unit in the last
    place, ties to the even multiple. *)
Definition round_pos (q : Q) : Q :=
  inject_Z (round_half_even (q / pow2 (quantum q))) * pow2 (quantum q).

(** The double nearest to a rational, ties to even; what reaches
    [2^1024] overflows. *)
Definition round64 (q : Q) : np_float :=
  match Qsign q with
  | Eq => Finite 0
  | Gt =>
      let r := round_pos q in
      if Qle_bool (pow2 1024) r then PosInf else Finite r
  | Lt =>
      let r := round_pos (- q) in
      if Qle_bool (pow2 1024) r then NegInf else Finite (- r)
  end.

(** [a * b]. *)
Definition fmul (a b : np_float) : np_float :=
  match a, b with
  | NaN, _ | _, NaN => NaN
  | Finite p, Finite q => round64 (p * q)
  | Finite p, PosInf | PosInf, Finite p =>
      match Qsign p with Eq => NaN | Gt => PosInf | Lt => NegInf end
  | Finite p, NegInf | NegInf, Finite p =>
      match Qsign p with Eq => NaN | Gt => NegInf | Lt => PosInf end
  | PosInf, PosInf | NegInf, NegInf => PosInf
  | PosInf, NegInf | NegInf, PosInf => NegInf
  end.

(** [a / b] as NumPy computes it: dividing by zero raises nothing, it
    yields an infinity, or NaN for [0 / 0].  The zero divisors met in
    this program are all the positive zero. *)
Definition fdiv (a b : np_float) : np_float :=
  match a, b with
  | NaN, _ | _, NaN => NaN
  | Finite p, Finite q =>
      match Qsign q with
      | Eq => match Qsign p with Eq => NaN | Gt => PosInf | Lt => NegInf end
      | _ => round64 (p / q)
      end
  | Finite _, _ => Finite 0
  | PosInf, Finite q =>
      match Qsign q with Lt => NegInf | _ => PosInf end
  | NegInf, Finite q =>
      match Qsign q with Lt => PosInf | _ => NegInf end
  | _, _ => NaN
  end.

(** An integer used as an operand of a float operation is converted to
    the nearest double. *)
Definition of_int (z : Z) : np_float := round64 (inject_Z z).

Definition np_round (a : np_float) : np_float :=
  match a with
  | Finite q => Finite (inject_Z (round_half_even q))
  | _ => a
  end.

(** Python's [int(...)] of a float truncates towards zero and rejects the
    special values. *)
Definition Qtruncate (q : Q) : Z :=
  if Qle_bool 0 q then Qfloor q else Qceiling q.

Definition py_int (a : np_float) : result Z :=
  match a with
  | Finite q => Ok (Qtruncate q)
  | PosInf | NegInf => Raise OverflowError
  | NaN => Raise ValueError
  end.

(* ===================================================================== *)
(** ** Arrays and indexing                                                *)
(* ===================================================================== *)

(** A 2-D integer array, row by row.  The masks of this program hold
    unsigned 8-bit intensities. *)
Definition ndarray2 : Type := list (list Z).

(** The array has [r] rows of [c] cells each. *)
Definition has_shape (m : ndarray2) (r c : nat) : Prop :=
  length m = r /\ Forall (fun row => length row = c) m.

Definition is_uint8 (v : Z) : Prop := 0 <= v < 256.

Definition uint8_array (m : ndarray2) : Prop :=
  Forall (Forall is_uint8) m.

(** Indexing one axis with a Python integer: an index in [[0, n)] selects
    from the front, one in [[-n, -1]] from the back, anything else raises
    [IndexError]. *)
Definition np_index {A} (l : list A) (i : Z) : result A :=
  let n := Z.of_nat (length l) in
  let j := if i <? 0 then i + n else i in
  if (0 <=? j) && (j <? n) then
    match nth_error l (Z.to_nat j) with
    | Some a => Ok a
    | None => Raise IndexError
    end
  else Raise IndexError.

(** [mask[x][y]]. *)
Definition np_index2 (mask : ndarray2) (x y : Z) : result Z :=
  let! row := np_index mask x in np_index row y.

(** The cell in row [i], column [j], counted from the top-left corner. *)
Definition cell (m : ndarray2) (i j : nat) : Z :=
  nth j (nth i m []) 0.

(* ===================================================================== *)
(** ** Membership: [get_cluster_count]                                    *)
(* ===================================================================== *)

(** A cluster centre in mask-pixel units, one row of [clusters_xy]. *)
Definition ClusterPoint : Type := (np_float * np_float)%type.

(** The body of the [for xy in clusters_xy] loop, carrying [count] and
    [locs_mask]. *)
Fixpoint count_loop (mask : ndarray2) (clusters_xy : list ClusterPoint)
    (count : Z) (locs_mask : list (Z * Z)) : result (Z * list (Z * Z)) :=
  match clusters_xy with
  | [] => Ok (count, locs_mask)
  | xy :: rest =>
      let! x := py_int (np_round (fst xy)) in
      let! y := py_int (np_round (snd xy)) in
      let! v := np_index2 mask x y in
      if negb (v =? 0)
      then count_loop mask rest (count + 1) (locs_mask ++ [(x, y)])
      else count_loop mask rest count locs_mask
  end.

Definition get_cluster_count (mask : ndarray2)
    (clusters_xy : list ClusterPoint) : result (Z * list (Z * Z)) :=
  count_loop mask clusters_xy 0 [].

(** The integer index a finite coordinate is turned into. *)
Definition rounded (xy : Q * Q) : Z * Z :=
  (round_half_even (fst xy), round_half_even (snd xy)).

Definition finite_point (xy : Q * Q) : ClusterPoint :=
  (Finite (fst xy), Finite (snd xy)).

(* ===================================================================== *)
(** ** Coordinate loader: [get_xy_locs]                                   *)
(* ===================================================================== *)

(** Pixel size of the measurement and of the cluster image, in nm. *)
Definition PX_SIZE_MEASUREMENT : Z := 108.
Definition PX_SIZE_CLUSTERS : Z := 10.

(** One row of the ["clusters"] table; only the two centre-of-mass
    columns are read, and they are taken to hold doubles. *)
Record cluster_record : Type := {
  com_x : np_float;
  com_y : np_float
}.

(** The opened container: its ["clusters"] table, when it has one.  The
    table has both centre-of-mass columns; a table without them, on
    which reading the column raises, is not part of the model. *)
Record h5_file : Type := {
  clusters : option (list cluster_record)
}.

Definition h5_getitem_clusters (f : h5_file) : result (list cluster_record) :=
  match clusters f with
  | Some table => Ok table
  | None => Raise KeyError
  end.

(** [column * PX_SIZE_MEASUREMENT / PX_SIZE_CLUSTERS], elementwise. *)
Definition rescale (v : np_float) : np_float :=
  fdiv (fmul v (of_int PX_SIZE_MEASUREMENT)) (of_int PX_SIZE_CLUSTERS).

(** [np.column_stack] of two columns of one length. *)
Definition column_stack (xs ys : list np_float) : list ClusterPoint :=
  combine xs ys.

(** [h5_path] stands for what opening it yields: [None] when the file
    cannot be opened. *)
Definition get_xy_locs (h5_path : option h5_file) : result (list ClusterPoint) :=
  match h5_path with
  | None => Raise OSError
  | Some h5 =>
      let! table := h5_getitem_clusters h5 in
      let xy_stack :=
        column_stack (map (fun rec => rescale (com_x rec)) table)
                     (map (fun rec => rescale (com_y rec)) table) in
      Ok xy_stack
  end.

(* ===================================================================== *)
(** ** Mask reader: [get_mask]                                            *)
(* ===================================================================== *)

(** A raster image: [im_width] columns, [im_height] rows, stored row by
    row from the top. *)
Record image (P : Type) : Type := {
  im_width : nat;
  im_height : nat;
  im_pixels : list (list P)
}.

Arguments im_width {P} _.
Arguments im_height {P} _.
Arguments im_pixels {P} _.

Definition well_formed {P} (img : image P) : Prop :=
  length (im_pixels img) = im_height img /\
  Forall (fun row => length row = im_width img) (im_pixels img).

(** The [h] by [w] grid whose cell in row [y], column [x] is [f y x]. *)
Definition grid_init (h w : nat) (f : nat -> nat -> Z) : ndarray2 :=
  map (fun y => map (fun x => f y x) (seq 0 w)) (seq 0 h).

(** The pixel of an 8-bit image in row [y], column [x]. *)
Definition pixel_at (img : image Z) (y x : nat) : Z :=
  cell (im_pixels img) y x.

(** [Image.transpose(FLIP_LEFT_RIGHT)]: every row is reversed. *)
Definition transpose_FLIP_LEFT_RIGHT (img : image Z) : image Z :=
  let w := im_width img in
  let h := im_height img in
  {| im_width := w; im_height := h;
     im_pixels := grid_init h w (fun y x => pixel_at img y (w - 1 - x)) |}.

(** [Image.transpose(ROTATE_90)]: a quarter turn counter-clockwise; the
    result is [im_height] wide and [im_width] high. *)
Definition transpose_ROTATE_90 (img : image Z) : image Z :=
  let w := im_width img in
  let h := im_height img in
  {| im_width := h; im_height := w;
     im_pixels := grid_init w h (fun y x => pixel_at img x (w - 1 - y)) |}.

(** [np.array(img)]: the rows of the image, shape [(height, width)]. *)
Definition np_array (img : image Z) : ndarray2 := im_pixels img.

Section MaskReader.

(** The pixel type of the decoded file, whatever its mode, and the
    8-bit luminance [convert("L")] gives each pixel. *)
Variable pixel : Type.
Variable to_L : pixel -> Z.

(** [Image.rotate] resamples into a canvas of the old size when the
    image is not square; that path of the imaging library is taken as
    given. *)
Variable rotate_resample : image Z -> image Z.

Definition convert_L (img : image pixel) : image Z :=
  {| im_width := im_width img; im_height := im_height img;
     im_pixels := map (map to_L) (im_pixels img) |}.

(** [img.rotate(90)]: a square image is turned exactly, by the
    quarter-turn transposition. *)
Definition rotate_90 (img : image Z) : image Z :=
  if (im_width img =? im_height img)%nat
  then transpose_ROTATE_90 img
  else rotate_resample img.

(** [mask_path] stands for what decoding the file yields: [None] when
    it cannot be decoded.  The other two arguments of the source are
    not used by it. *)
Definition get_mask (mask_path : option (image pixel)) : result ndarray2 :=
  match mask_path with
  | None => Raise OSError
  | Some opened =>
      let img := convert_L opened in
      let img := transpose_FLIP_LEFT_RIGHT img in
      let img := rotate_90 img in
      let mask := np_array img in
      Ok mask
  end.

End MaskReader.


(* ===================================================================== *)
(** ** Mask area: [get_mask_area]                                         *)
(* ===================================================================== *)

(** [np.where(mask > 0, 1, mask)]. *)
Definition np_where_positive (mask : ndarray2) : ndarray2 :=
  map (map (fun v => if 0 <? v then 1 else v)) mask.

(** [np.sum] of an unsigned 8-bit array, as [get_mask] produces it,
    accumulates in an unsigned 64-bit integer. *)
Definition wrap64 (z : Z) : Z := z mod 2 ^ 64.

Definition np_sum (a : ndarray2) : Z :=
  fold_left (fun acc v => wrap64 (acc + v)) (concat a) 0.

Definition fsquare (a : np_float) : np_float := fmul a a.

Definition get_mask_area (mask : ndarray2) : Z * np_float :=
  let mask := np_where_positive mask in
  let area_px := np_sum mask in
  let area_um :=
    fmul (of_int area_px) (fsquare (fdiv (of_int PX_SIZE_CLUSTERS) (of_int 1000))) in
  (area_px, area_um).

(* ===================================================================== *)
(** ** The per-directory pipeline: [run_quantify_clusters] and [main]     *)
(* ===================================================================== *)

(** The data row [save_results] writes for one mask. *)
Record csv_row : Type := {
  csv_mask_name : string;
  csv_mask_area_px : Z;
  csv_mask_area_um : np_float;
  csv_cluster_count : Z;
  csv_cluster_count_per_area : np_float;
  csv_n_clusters : Z
}.

(** The rows of [clusters_xy] are zipped into the two names [x_coords]
    and [y_coords], which needs at least one row; the same unpacking of
    [locs_mask] is guarded by [if locs_mask].  Drawing itself is left to
    the plotting library; the figure it then saves is written by
    [visualize_cluster_centers_mask_files]. *)
Definition visualize_cluster_centers_mask (clusters_xy : list ClusterPoint)
    (locs_mask : list (Z * Z)) (mask : ndarray2) : result unit :=
  match clusters_xy with
  | [] => Raise ValueError
  | _ :: _ => Ok tt
  end.

(** [xs[0]] on a Python list. *)
Definition list_first {A} (xs : list A) : result A :=
  match xs with
  | [] => Raise IndexError
  | x :: _ => Ok x
  end.

(** The area, the count and the density of one mask: the three
    assignments of the loop body that follow the reading of the mask. *)
Definition mask_density (mask : ndarray2) (clusters_xy : list ClusterPoint)
  : result (Z * np_float * Z * list (Z * Z) * np_float) :=
  let '(mask_area_px, mask_area_um) := get_mask_area mask in
  let! count_locs := get_cluster_count mask clusters_xy in
  let '(cluster_count, locs_mask) := count_locs in
  let cluster_count_per_area := fdiv (of_int cluster_count) mask_area_um in
  Ok (mask_area_px, mask_area_um, cluster_count, locs_mask,
      cluster_count_per_area).

(** What a directory holds, as the two listings of the source see it:
    the files ending in [.hdf5] and the mask images, each with what
    opening it yields. *)
Record directory (P : Type) : Type := {
  hdf5_files : list (option h5_file);
  mask_files : list (string * option (image P))
}.

Arguments hdf5_files {P} _.
Arguments mask_files {P} _.

Section Pipeline.

Variable pixel : Type.
Variable to_L : pixel -> Z.
Variable rotate_resample : image Z -> image Z.

(** One pass of the loop over [masks_paths].  The row is returned for
    [save_results] to write. *)
Definition quantify_mask (clusters_xy : list ClusterPoint) (n_clusters : Z)
    (mask_path : string * option (image pixel)) : result csv_row :=
  let mask_name := fst mask_path in
  let! mask := get_mask pixel to_L rotate_resample (snd mask_path) in
  let! stats := mask_density mask clusters_xy in
  let '(mask_area_px, mask_area_um, cluster_count, locs_mask,
        cluster_count_per_area) := stats in
  let! _ := visualize_cluster_centers_mask clusters_xy locs_mask mask in
  Ok {| csv_mask_name := mask_name;
        csv_mask_area_px := mask_area_px;
        csv_mask_area_um := mask_area_um;
        csv_cluster_count := cluster_count;
        csv_cluster_count_per_area := cluster_count_per_area;
        csv_n_clusters := n_clusters |}.

(** The loop over the masks, threading the rows written so far.  No
    exception is caught: the first one ends the loop. *)
Fixpoint mask_loop (clusters_xy : list ClusterPoint) (n_clusters : Z)
    (masks_paths : list (string * option (image pixel)))
    (written : list csv_row) : result unit * list csv_row :=
  match masks_paths with
  | [] => (Ok tt, written)
  | mask_path :: rest =>
      match quantify_mask clusters_xy n_clusters mask_path with
      | Ok row => mask_loop clusters_xy n_clusters rest (written ++ [row])
      | Raise e => (Raise e, written)
      end
  end.

Definition run_quantify_clusters (dir_path : directory pixel)
    (written : list csv_row) : result unit * list csv_row :=
  match list_first (hdf5_files dir_path) with
  | Raise e => (Raise e, written)
  | Ok cluster_path =>
      match get_xy_locs cluster_path with
      | Raise e => (Raise e, written)
      | Ok clusters_xy =>
          let n_clusters := Z.of_nat (length clusters_xy) in
          mask_loop clusters_xy n_clusters (mask_files dir_path) written
      end
  end.

(** The loop of [main] over the directories. *)
Fixpoint main_loop (dir_paths : list (directory pixel))
    (written : list csv_row) : result unit * list csv_row :=
  match dir_paths with
  | [] => (Ok tt, written)
  | dir_path :: rest =>
      match run_quantify_clusters dir_path written with
      | (Ok _, written') => main_loop rest written'
      | (Raise e, written') => (Raise e, written')
      end
  end.

Definition main (DIR_PATHS : list (directory pixel))
  : result unit * list csv_row :=
  main_loop DIR_PATHS [].

End Pipeline.

(* ===================================================================== *)
(** ** The two engine functions over a store of objects                   *)
(* ===================================================================== *)

(** Arrays and lists are objects of a store, and the functions receive
    references to them.  This is the view in which a callee could write
    to the caller's mask or coordinate array. *)

Inductive object : Type :=
| ArrayObj (a : ndarray2)
| PointsObj (p : list ClusterPoint)
| ListObj (l : list (Z * Z)).

Abbreviation loc := positive.
Abbreviation heap := (gmap positive object).

Definition alloc (o : object) (h : heap) : loc * heap :=
  let l := fresh (dom h) in (l, <[l := o]> h).

Definition read_array (h : heap) (l : loc) : result ndarray2 :=
  match h !! l with
  | Some (ArrayObj a) => Ok a
  | _ => Raise TypeError
  end.

Definition read_points (h : heap) (l : loc) : result (list ClusterPoint) :=
  match h !! l with
  | Some (PointsObj p) => Ok p
  | _ => Raise TypeError
  end.

Definition read_list (h : heap) (l : loc) : result (list (Z * Z)) :=
  match h !! l with
  | Some (ListObj xs) => Ok xs
  | _ => Raise TypeError
  end.

(** [locs_mask.append(v)] writes to the list object in place. *)
Definition list_append (l : loc) (v : Z * Z) (h : heap) : result heap :=
  let! xs := read_list h l in
  Ok (<[l := ListObj (xs ++ [v])]> h).

(** Row [i] of the coordinate array, read when the iteration reaches it. *)
Definition read_row (h : heap) (l : loc) (i : nat) : result ClusterPoint :=
  let! p := read_points h l in
  match nth_error p i with
  | Some xy => Ok xy
  | None => Raise IndexError
  end.

(** One pass of the body of the loop of [get_cluster_count]. *)
Definition count_body_h (mask clusters_xy locs_mask : loc) (i : nat)
    (count : Z) (h : heap) : result (Z * heap) :=
  let! xy := read_row h clusters_xy i in
  let! x := py_int (np_round (fst xy)) in
  let! y := py_int (np_round (snd xy)) in
  let! m := read_array h mask in
  let! v := np_index2 m x y in
  if negb (v =? 0)
  then let! h' := list_append locs_mask (x, y) h in Ok (count + 1, h')
  else Ok (count, h).

Fixpoint count_loop_h (mask clusters_xy locs_mask : loc) (rows : list nat)
    (count : Z) (h : heap) : result Z * heap :=
  match rows with
  | [] => (Ok count, h)
  | i :: rest =>
      match count_body_h mask clusters_xy locs_mask i count h with
      | Ok (count', h') =>
          count_loop_h mask clusters_xy locs_mask rest count' h'
      | Raise e => (Raise e, h)
      end
  end.

(** [get_cluster_count] on references: the result is the count and the
    reference of the new list [locs_mask]. *)
Definition get_cluster_count_h (mask clusters_xy : loc) (h : heap)
  : result (Z * loc) * heap :=
  let count := 0 in
  let '(locs_mask, h) := alloc (ListObj []) h in
  match read_points h clusters_xy with
  | Raise e => (Raise e, h)
  | Ok p =>
      match count_loop_h mask clusters_xy locs_mask
                         (seq 0 (length p)) count h with
      | (Ok count, h') => (Ok (count, locs_mask), h')
      | (Raise e, h') => (Raise e, h')
      end
  end.

(** [get_mask_area] on a reference: [np.where] builds a new array, and
    the assignment binds the local name [mask] to it. *)
Definition get_mask_area_h (mask : loc) (h : heap)
  : result (Z * np_float) * heap :=
  match read_array h mask with
  | Raise e => (Raise e, h)
  | Ok a =>
      let '(mask, h) := alloc (ArrayObj (np_where_positive a)) h in
      match read_array h mask with
      | Raise e => (Raise e, h)
      | Ok a' =>
          let area_px := np_sum a' in
          let area_um :=
            fmul (of_int area_px)
                 (fsquare (fdiv (of_int PX_SIZE_CLUSTERS) (of_int 1000))) in
          (Ok (area_px, area_um), h)
      end
  end.

(** The objects of [h] are all still in [h'], unchanged. *)
Definition preserved (h h' : heap) : Prop :=
  forall (l : loc) (o : object), h !! l = Some o -> h' !! l = Some o.


(* ===================================================================== *)
(** ** File names: what [run_quantify_clusters] selects and writes        *)
(* ===================================================================== *)

(** The names that [os.listdir] returns contain no directory separator.
    A path built by [os.path.join(dir_path, file)] is kept as the name
    [file] inside the directory [dir_path]: its [basename] is [file], and
    splitting its extension off splits the extension of [file] off. *)

(** [l] starts with [pre]. *)
Fixpoint starts_with (pre l : list ascii) : bool :=
  match pre, l with
  | [], _ => true
  | _ :: _, [] => false
  | a :: pre', b :: l' => Ascii.eqb a b && starts_with pre' l'
  end.

(** [s.endswith(suffix)]. *)
Definition endswith (s suffix : string) : bool :=
  starts_with (rev (list_ascii_of_string suffix))
              (rev (list_ascii_of_string s)).

(** [s.endswith((suffix1, suffix2, ...))]. *)
Definition endswith_any (s : string) (suffixes : list string) : bool :=
  existsb (endswith s) suffixes.

Fixpoint contains_chars (sub l : list ascii) : bool :=
  starts_with sub l ||
  match l with
  | [] => false
  | _ :: l' => contains_chars sub l'
  end.

(** [sub in s]. *)
Definition str_contains (sub s : string) : bool :=
  contains_chars (list_ascii_of_string sub) (list_ascii_of_string s).

Definition is_dot (a : ascii) : bool := Ascii.eqb a ".".

(** Walking a name from its end up to its last dot: what lies before
    that dot, and the dot with what follows it. *)
Fixpoint rsplit_dot (reversed after : list ascii)
  : option (list ascii * list ascii) :=
  match reversed with
  | [] => None
  | a :: before =>
      if is_dot a then Some (rev before, a :: after)
      else rsplit_dot before (a :: after)
  end.

(** [os.path.splitext] of a name without directory separator: the name
    is split at its last dot, unless only dots come before it. *)
Definition splitext (p : string) : string * string :=
  match rsplit_dot (rev (list_ascii_of_string p)) [] with
  | Some (root, ext) =>
      if forallb is_dot root then (p, EmptyString)
      else (string_of_list_ascii root, string_of_list_ascii ext)
  | None => (p, EmptyString)
  end.

(** An entry of the directory: its name and what opening it yields, as a
    cluster container and as an image. *)
Record dir_entry (P : Type) : Type := {
  entry_name : string;
  entry_h5 : option h5_file;
  entry_image : option (image P)
}.

Arguments entry_name {P} _.
Arguments entry_h5 {P} _.
Arguments entry_image {P} _.

(** The listing filtered for the cluster files. *)
Definition cluster_paths {P} (listing : list (dir_entry P))
  : list (dir_entry P) :=
  List.filter (fun file => endswith (entry_name file) ".hdf5") listing.

(** The listing filtered for the mask images. *)
Definition masks_paths {P} (listing : list (dir_entry P))
  : list (dir_entry P) :=
  List.filter
    (fun file =>
       endswith_any (entry_name file) [".tif"; ".png"; ".jpg"]%string &&
       negb (str_contains "_FOV_mask_locs" (entry_name file)))
    listing.

(** [mask_name]: the name of the mask file without its extension. *)
Definition mask_name_of {P} (mask_path : dir_entry P) : string :=
  fst (splitext (entry_name mask_path)).

(** The two listings of [run_quantify_clusters], with the mask names. *)
Definition scan_directory {P} (listing : list (dir_entry P)) : directory P :=
  {| hdf5_files := map entry_h5 (cluster_paths listing);
     mask_files :=
       map (fun mask_path => (mask_name_of mask_path, entry_image mask_path))
           (masks_paths listing) |}.

(** The name of the figure [visualize_cluster_centers_mask] saves in the
    directory, and of the file [save_results] is sent to. *)
Definition plot_name (mask_name : string) : string :=
  (mask_name ++ "_FOV_mask_locs.png")%string.

Definition csv_name (cluster_file mask_name : string) : string :=
  (fst (splitext cluster_file) ++ mask_name ++ ".csv")%string.

(* ===================================================================== *)
(** ** Writing the results: [save_results]                                *)
(* ===================================================================== *)

(** The header row; the superscript two and the micro sign are held as
    the bytes of their UTF-8 encoding. *)
Definition csv_header : list string :=
  ["name"; "mask area / px²"; "mask area / µm²";
   "number of clusters in mask";
   "number of clusters in mask / mask area";
   "total number of clusters"]%string.

(** What a run leaves in a file of the directory: a table of results,
    with its header row and its data row, or a figure, with what it
    shows. *)
Inductive written_file : Type :=
| CsvFile (header : list string) (row : csv_row)
| Figure (clusters_xy : list ClusterPoint) (locs_mask : list (Z * Z))
         (mask : ndarray2).

(** Opening with mode ["w"] replaces what the path held; two rows are
    written. *)
Definition save_results (mask_name : string) (mask_area_px : Z)
    (mask_area_um : np_float) (cluster_count : Z)
    (cluster_count_per_area : np_float) (n_clusters : Z)
    (save_path : string) (files : gmap string written_file)
  : gmap string written_file :=
  <[save_path :=
      CsvFile csv_header
        {| csv_mask_name := mask_name;
           csv_mask_area_px := mask_area_px;
           csv_mask_area_um := mask_area_um;
           csv_cluster_count := cluster_count;
           csv_cluster_count_per_area := cluster_count_per_area;
           csv_n_clusters := n_clusters |}]> files.

(** [visualize_cluster_centers_mask] with the files of the directory:
    once the coordinates are unpacked, the figure is saved under the
    name of the mask, replacing what that path held. *)
Definition visualize_cluster_centers_mask_files
    (clusters_xy : list ClusterPoint) (locs_mask : list (Z * Z))
    (mask : ndarray2) (mask_name : string)
    (files : gmap string written_file)
  : result unit * gmap string written_file :=
  match visualize_cluster_centers_mask clusters_xy locs_mask mask with
  | Ok _ =>
      (Ok tt,
       <[plot_name mask_name := Figure clusters_xy locs_mask mask]> files)
  | Raise e => (Raise e, files)
  end.

Section Files.

Variable pixel : Type.
Variable to_L : pixel -> Z.
Variable rotate_resample : image Z -> image Z.

(** The loop over the masks with the files of the directory: each pass
    reads its mask, computes its numbers, saves the figure and then
    saves the row under the name built from the cluster file and the
    mask. *)
Fixpoint mask_loop_files (cluster_file : string)
    (clusters_xy : list ClusterPoint) (n_clusters : Z)
    (masks : list (string * option (image pixel)))
    (files : gmap string written_file)
  : result unit * gmap string written_file :=
  match masks with
  | [] => (Ok tt, files)
  | mask_path :: rest =>
      let mask_name := fst mask_path in
      match get_mask pixel to_L rotate_resample (snd mask_path) with
      | Raise e => (Raise e, files)
      | Ok mask =>
          match mask_density mask clusters_xy with
          | Raise e => (Raise e, files)
          | Ok (mask_area_px, mask_area_um, cluster_count, locs_mask,
                cluster_count_per_area) =>
              match visualize_cluster_centers_mask_files
                      clusters_xy locs_mask mask mask_name files with
              | (Raise e, files') => (Raise e, files')
              | (Ok _, files') =>
                  mask_loop_files cluster_file clusters_xy n_clusters rest
                    (save_results mask_name mask_area_px mask_area_um
                       cluster_count cluster_count_per_area n_clusters
                       (csv_name cluster_file mask_name) files')
              end
          end
      end
  end.

(** [run_quantify_clusters] on the listing of a directory, with the
    files it leaves there. *)
Definition run_quantify_clusters_files (listing : list (dir_entry pixel))
    (files : gmap string written_file)
  : result unit * gmap string written_file :=
  match list_first (cluster_paths listing) with
  | Raise e => (Raise e, files)
  | Ok cluster_path =>
      match get_xy_locs (entry_h5 cluster_path) with
      | Raise e => (Raise e, files)
      | Ok clusters_xy =>
          let n_clusters := Z.of_nat (length clusters_xy) in
          mask_loop_files (entry_name cluster_path) clusters_xy n_clusters
            (mask_files (scan_directory listing)) files
      end
  end.

End Files.

(* ===================================================================== *)
(** ** The plotting helpers                                               *)
(* ===================================================================== *)

(** The helpers are not called by [run_quantify_clusters].  Two of them
    unpack a list of coordinates before they draw; what is kept of each
    is whether that raises. *)

(** Unpacks the zipped [locs_mask] into two names, without a guard. *)
Definition helper_plot_coordinates_mask (mask : ndarray2)
    (locs_mask : list (Z * Z)) : result unit :=
  match locs_mask with
  | [] => Raise ValueError
  | _ :: _ => Ok tt
  end.

(** Unpacks the zipped [clusters_xy] into two names. *)
Definition helper_plot_coordinates_FOV (clusters_xy : list ClusterPoint)
  : result unit :=
  match clusters_xy with
  | [] => Raise ValueError
  | _ :: _ => Ok tt
  end.
(* ===================================================================== *)
(** ** Vocabulary of the membership properties                            *)
(* ===================================================================== *)

(** Both indices lie inside the grid: row in [[0, r)], column in [[0, c)]. *)
Definition in_extent (r c : nat) (ij : Z * Z) : Prop :=
  0 <= fst ij < Z.of_nat r /\ 0 <= snd ij < Z.of_nat c.

(** Both indices are accepted by array indexing: row in [[-r, r)], column
    in [[-c, c)]. *)
Definition in_wrapped_extent (r c : nat) (ij : Z * Z) : Prop :=
  - Z.of_nat r <= fst ij < Z.of_nat r /\ - Z.of_nat c <= snd ij < Z.of_nat c.

(** The cell an accepted index pair selects is non-zero. *)
Definition hit (mask : ndarray2) (r c : nat) (ij : Z * Z) : bool :=
  negb (cell mask (Z.to_nat (fst ij mod Z.of_nat r))
                  (Z.to_nat (snd ij mod Z.of_nat c)) =? 0).


(** The outcome of the test [mask[x][y] != 0] for an index pair, when the
    indexing raises nothing. *)
Definition selects_nonzero (mask : ndarray2) (ij : Z * Z) : bool :=
  match np_index2 mask (fst ij) (snd ij) with
  | Ok v => negb (v =? 0)
  | Raise _ => false
  end.

(* ===================================================================== *)
(** ** Vocabulary of the other properties                                 *)
(* ===================================================================== *)


(** Number of non-zero cells of an array. *)
Definition count_nonzero (m : ndarray2) : Z :=
  Z.of_nat (length (List.filter (fun v => negb (v =? 0)) (concat m))).

Definition all_zero (m : ndarray2) : Prop :=
  Forall (Forall (fun v => v = 0)) m.





(* ===================================================================== *)
(** ** Vocabulary of the further properties                               *)
(* ===================================================================== *)


(** Wherever [m1] is non-zero, so is [m2]. *)
Definition covers (m1 m2 : ndarray2) : Prop :=
  forall i j : nat, cell m1 i j <> 0 -> cell m2 i j <> 0.

(** No cell of the array is zero. *)
Definition all_nonzero (m : ndarray2) : Prop :=
  Forall (Forall (fun v => v <> 0)) m.

(** The 8-bit image of [n] by [n] pixels with the given rows. *)
Definition square_image (n : nat) (rows : ndarray2) : image Z :=
  {| im_width := n; im_height := n; im_pixels := rows |}.

(** Sum of [g] over a list of indices. *)
Definition sum_over (g : nat -> nat) (idx : list nat) : nat :=
  list_sum (map g idx).

(** 1 for a non-zero cell, 0 for a zero one. *)
Definition indicator (v : Z) : nat := if v =? 0 then 0%nat else 1%nat.

(** What holds of every row the pipeline writes. *)
Definition row_consistent (row : csv_row) : Prop :=
  0 <= csv_cluster_count row <= csv_n_clusters row /\
  1 <= csv_n_clusters row /\
  0 <= csv_mask_area_px row < 2 ^ 64 /\
  csv_mask_area_um row =
    fmul (of_int (csv_mask_area_px row))
         (fsquare (fdiv (of_int PX_SIZE_CLUSTERS) (of_int 1000))) /\
  csv_cluster_count_per_area row =
    fdiv (of_int (csv_cluster_count row)) (csv_mask_area_um row).

(** The last row of the list that carries the mask name [name]. *)
Definition last_row_named (name : string) (rows : list csv_row)
  : option csv_row :=
  fold_left (fun found row =>
               if String.eqb (csv_mask_name row) name then Some row else found)
            rows None.

(** Some character of the string is not a dot. *)
Definition has_non_dot (s : string) : bool :=
  negb (forallb is_dot (list_ascii_of_string s)).


(** The file is the figure of the mask whose numbers the row carries:
    it shows the clusters, the mask, and the points counted inside. *)
Definition figure_of_row (clusters_xy : list ClusterPoint) (row : csv_row)
    (file : option written_file) : Prop :=
  exists (locs_mask : list (Z * Z)) (mask : ndarray2),
    file = Some (Figure clusters_xy locs_mask mask) /\
    get_cluster_count mask clusters_xy = Ok (csv_cluster_count row, locs_mask) /\
    csv_mask_area_px row = fst (get_mask_area mask).
(* ===================================================================== *)
(** ** Facts about rounding and indexing                                  *)
(* ===================================================================== *)

Lemma Ok_inj {A} (a b : A) : Ok a = Ok b -> a = b.
Proof. now intros [= ->]. Qed.

Section Rounding.

Lemma Qtruncate_inject_Z (z : Z) : Qtruncate (inject_Z z) = z.
Proof.
  unfold Qtruncate.
  destruct (Qle_bool 0 (inject_Z z)); [apply Qfloor_Z | apply Qceiling_Z].
Qed.

Lemma py_int_np_round (q : Q) :
  py_int (np_round (Finite q)) = Ok (round_half_even q).
Proof. simpl. now rewrite Qtruncate_inject_Z. Qed.

Lemma floor_frac (q : Q) :
  (0 <= q - inject_Z (Qfloor q) < 1)%Q.
Proof.
  pose proof (Qfloor_le q) as Hlo.
  pose proof (Qlt_floor q) as Hhi.
  rewrite inject_Z_plus in Hhi.
  change (inject_Z 1) with 1%Q in Hhi.
  split; lra.
Qed.

Lemma round_half_even_nearest (q : Q) :
  (Qabs (q - inject_Z (round_half_even q)) <= 1 # 2)%Q.
Proof.
  unfold round_half_even.
  pose proof (floor_frac q) as [Hlo Hhi].
  apply Qabs_Qle_condition.
  destruct (q - inject_Z (Qfloor q) ?= 1 # 2)%Q eqn:Hc.
  - apply Qeq_alt in Hc.
    destruct (Z.even (Qfloor q));
      [| rewrite inject_Z_plus; change (inject_Z 1) with 1%Q]; split; lra.
  - apply Qlt_alt in Hc. split; lra.
  - apply Qgt_alt in Hc.
    rewrite inject_Z_plus; change (inject_Z 1) with 1%Q. split; lra.
Qed.

Lemma round_half_even_tie (q : Q) :
  (Qabs (q - inject_Z (round_half_even q)) == 1 # 2)%Q ->
  Z.even (round_half_even q) = true.
Proof.
  unfold round_half_even.
  pose proof (floor_frac q) as [Hlo Hhi].
  destruct (q - inject_Z (Qfloor q) ?= 1 # 2)%Q eqn:Hc.
  - intros _. destruct (Z.even (Qfloor q)) eqn:He; [exact He |].
    rewrite Z.even_add, He. reflexivity.
  - apply Qlt_alt in Hc. intros Habs. exfalso.
    rewrite Qabs_pos in Habs by lra. lra.
  - apply Qgt_alt in Hc. intros Habs. exfalso.
    rewrite inject_Z_plus in Habs; change (inject_Z 1) with 1%Q in Habs.
    rewrite Qabs_neg in Habs by lra. lra.
Qed.

End Rounding.

Section Indexing.

Context {A : Type}.

(** Inside the extended range [[-n, n)] the index is taken modulo the
    length of the axis. *)
Lemma np_index_wraps (l : list A) (i : Z) (d : A) :
  - Z.of_nat (length l) <= i < Z.of_nat (length l) ->
  np_index l i = Ok (nth (Z.to_nat (i mod Z.of_nat (length l))) l d).
Proof.
  intros Hi. unfold np_index.
  set (n := Z.of_nat (length l)) in *.
  assert (Hj : (if i <? 0 then i + n else i) = i mod n).
  { destruct (Z.ltb_spec i 0).
    - apply Z.mod_unique with (q := -1); lia.
    - symmetry. apply Z.mod_small. lia. }
  rewrite Hj.
  assert (Hm : 0 <= i mod n < n) by (apply Z.mod_pos_bound; lia).
  destruct (Z.leb_spec 0 (i mod n)); [| lia].
  destruct (Z.ltb_spec (i mod n) n); [| lia]. simpl.
  destruct (nth_error l (Z.to_nat (i mod n))) as [a |] eqn:Hn.
  - f_equal. symmetry. now apply nth_error_nth.
  - apply nth_error_None in Hn. lia.
Qed.

Lemma np_index_raises (l : list A) (i : Z) :
  ~ (- Z.of_nat (length l) <= i < Z.of_nat (length l)) ->
  np_index l i = Raise IndexError.
Proof.
  intros Hi. unfold np_index.
  set (n := Z.of_nat (length l)) in *.
  destruct (Z.ltb_spec i 0);
    [destruct (Z.leb_spec 0 (i + n)) | destruct (Z.leb_spec 0 i)];
    simpl; try reflexivity; try lia.
  destruct (Z.ltb_spec i n); [lia | reflexivity].
Qed.

End Indexing.

Lemma shape_row (m : ndarray2) (r c i : nat) :
  has_shape m r c -> (i < r)%nat -> length (nth i m []) = c.
Proof.
  intros [Hr Hc] Hi. subst r.
  rewrite List.Forall_forall in Hc. apply Hc. now apply nth_In.
Qed.

(** [mask[x][y]] on an [r] by [c] array, with both indices in their
    extended range, is the cell at [(x mod r, y mod c)]. *)
Lemma np_index2_wraps (m : ndarray2) (r c : nat) (x y : Z) :
  has_shape m r c ->
  - Z.of_nat r <= x < Z.of_nat r ->
  - Z.of_nat c <= y < Z.of_nat c ->
  np_index2 m x y =
  Ok (cell m (Z.to_nat (x mod Z.of_nat r)) (Z.to_nat (y mod Z.of_nat c))).
Proof.
  intros Hs Hx Hy. unfold np_index2, cell.
  pose proof Hs as [Hr _].
  rewrite (np_index_wraps m x []) by lia. simpl.
  assert (Hm : 0 <= x mod Z.of_nat r < Z.of_nat r)
    by (apply Z.mod_pos_bound; lia).
  rewrite Hr.
  assert (Hlen : length (nth (Z.to_nat (x mod Z.of_nat r)) m []) = c)
    by (apply (shape_row m r c); [exact Hs | lia]).
  rewrite (np_index_wraps _ y 0) by (rewrite Hlen; lia).
  now rewrite Hlen.
Qed.

Lemma np_index2_raises (m : ndarray2) (r c : nat) (x y : Z) :
  has_shape m r c ->
  ~ (- Z.of_nat r <= x < Z.of_nat r /\ - Z.of_nat c <= y < Z.of_nat c) ->
  np_index2 m x y = Raise IndexError.
Proof.
  intros Hs Hout. unfold np_index2.
  pose proof Hs as [Hr _].
  destruct (Z_le_dec (- Z.of_nat r) x) as [Hx1 |];
    [destruct (Z_lt_dec x (Z.of_nat r)) as [Hx2 |] |];
    try (rewrite np_index_raises by lia; reflexivity).
  rewrite (np_index_wraps m x []) by lia. simpl.
  assert (Hm : 0 <= x mod Z.of_nat r < Z.of_nat r)
    by (apply Z.mod_pos_bound; lia).
  rewrite Hr.
  assert (Hlen : length (nth (Z.to_nat (x mod Z.of_nat r)) m []) = c)
    by (apply (shape_row m r c); [exact Hs | lia]).
  apply np_index_raises. rewrite Hlen. lia.
Qed.

Lemma in_extent_wrapped (r c : nat) (ij : Z * Z) :
  in_extent r c ij -> in_wrapped_extent r c ij.
Proof. unfold in_extent, in_wrapped_extent. lia. Qed.

Lemma hit_in_extent (mask : ndarray2) (r c : nat) (ij : Z * Z) :
  in_extent r c ij ->
  hit mask r c ij =
  negb (cell mask (Z.to_nat (fst ij)) (Z.to_nat (snd ij)) =? 0).
Proof.
  intros [Hx Hy]. unfold hit.
  now rewrite !Z.mod_small by lia.
Qed.

Section CountLoop.

Variable mask : ndarray2.
Variables r c : nat.
Hypothesis Hshape : has_shape mask r c.

Lemma count_loop_step (p : Q * Q) (rest : list ClusterPoint)
    (count : Z) (locs : list (Z * Z)) :
  count_loop mask (finite_point p :: rest) count locs =
  let! v := np_index2 mask (fst (rounded p)) (snd (rounded p)) in
  if negb (v =? 0)
  then count_loop mask rest (count + 1) (locs ++ [rounded p])
  else count_loop mask rest count locs.
Proof.
  destruct p as [a b]. cbn [count_loop finite_point fst snd].
  rewrite !py_int_np_round. reflexivity.
Qed.

(** With every index pair accepted, the loop returns the hits in order. *)
Lemma count_loop_wrapped (pts : list (Q * Q)) :
  Forall (fun p => in_wrapped_extent r c (rounded p)) pts ->
  forall count locs,
    count_loop mask (map finite_point pts) count locs =
    let ins := List.filter (hit mask r c) (map rounded pts) in
    Ok (count + Z.of_nat (length ins), locs ++ ins).
Proof.
  induction 1 as [| p pts [Hx Hy] _ IH]; intros count locs.
  - cbn. now rewrite Z.add_0_r, app_nil_r.
  - cbn [map]. rewrite count_loop_step.
    rewrite (np_index2_wraps mask r c) by assumption.
    cbn [rbind List.filter]. fold (hit mask r c (rounded p)).
    destruct (hit mask r c (rounded p)).
    + rewrite IH. cbn [length]. rewrite <- app_assoc. cbn [app].
      f_equal. f_equal. lia.
    + apply IH.
Qed.

(** One index pair that indexing rejects makes the whole call fail. *)
Lemma count_loop_rejects (pts : list (Q * Q)) :
  Exists (fun p => ~ in_wrapped_extent r c (rounded p)) pts ->
  forall count locs,
    count_loop mask (map finite_point pts) count locs = Raise IndexError.
Proof.
  induction pts as [| p pts IH]; intros Hex count locs.
  - inversion Hex.
  - cbn [map]. rewrite count_loop_step.
    assert (Hdec : in_wrapped_extent r c (rounded p) \/
                   ~ in_wrapped_extent r c (rounded p))
      by (unfold in_wrapped_extent; lia).
    destruct Hdec as [[Hx Hy] | Hout].
    + rewrite (np_index2_wraps mask r c) by assumption. cbn [rbind].
      assert (Htl : Exists (fun p => ~ in_wrapped_extent r c (rounded p)) pts).
      { inversion Hex as [? ? Hhd | ? ? Htl']; subst; [| exact Htl'].
        exfalso. apply Hhd. now split. }
      destruct (negb _); now apply IH.
    + now rewrite (np_index2_raises mask r c).
Qed.

Lemma count_loop_not_ok (cl : list ClusterPoint) (p : Q * Q) :
  In (finite_point p) cl ->
  ~ in_wrapped_extent r c (rounded p) ->
  forall count locs, is_ok (count_loop mask cl count locs) = false.
Proof.
  intros Hin Hout.
  induction cl as [| xy cl IH]; intros count locs; [inversion Hin |].
  destruct Hin as [-> | Hin].
  - rewrite count_loop_step.
    now rewrite (np_index2_raises mask r c).
  - cbn [count_loop].
    destruct (py_int (np_round (fst xy))) as [x |]; [| reflexivity].
    destruct (py_int (np_round (snd xy))) as [y |]; [| reflexivity].
    cbn [rbind].
    destruct (np_index2 mask x y) as [v |]; [| reflexivity].
    cbn [rbind]. destruct (negb _); now apply IH.
Qed.

End CountLoop.

Lemma filter_sublist {A} (f : A -> bool) (l : list A) :
  sublist (List.filter f l) l.
Proof.
  induction l as [| a l IH]; cbn; [constructor |].
  destruct (f a); now constructor.
Qed.

(** Whatever the mask, a call that returns has seen only finite points
    whose index pairs were all accepted, and has collected, in order,
    those that select a non-zero cell. *)
Lemma count_loop_returns (mask : ndarray2) (cl : list ClusterPoint) :
  forall count locs count' locs',
    count_loop mask cl count locs = Ok (count', locs') ->
    exists pts : list (Q * Q),
      cl = map finite_point pts /\
      Forall (fun p => is_ok (np_index2 mask (fst (rounded p))
                                             (snd (rounded p))) = true) pts /\
      count' = count + Z.of_nat (length (List.filter (selects_nonzero mask)
                                                     (map rounded pts))) /\
      locs' = locs ++ List.filter (selects_nonzero mask) (map rounded pts).
Proof.
  induction cl as [| [a b] cl IH]; intros count locs count' locs' Hrun.
  - injection Hrun as <- <-. exists []. cbn.
    rewrite app_nil_r, Z.add_0_r. repeat split. constructor.
  - destruct a as [qa | | |]; try discriminate Hrun.
    destruct b as [qb | | |]; try discriminate Hrun.
    change (Finite qa, Finite qb) with (finite_point (qa, qb)) in Hrun |- *.
    rewrite count_loop_step in Hrun.
    destruct (np_index2 mask _ _) as [v |] eqn:Hv; [| discriminate Hrun].
    cbn [rbind] in Hrun.
    assert (Hsel : selects_nonzero mask (rounded (qa, qb)) = negb (v =? 0))
      by (unfold selects_nonzero; now rewrite Hv).
    assert (Hok : is_ok (np_index2 mask (fst (rounded (qa, qb)))
                                        (snd (rounded (qa, qb)))) = true)
      by now rewrite Hv.
    destruct (negb (v =? 0));
      apply IH in Hrun as (pts & -> & Hall & -> & ->);
      exists ((qa, qb) :: pts); cbn [map List.filter]; rewrite Hsel;
      (split; [reflexivity |]); (split; [now constructor |]).
    + cbn [length]. rewrite <- app_assoc. split; [lia | reflexivity].
    + split; reflexivity.
Qed.

(* ===================================================================== *)
(** ** Facts about rounding to a double                                   *)
(* ===================================================================== *)

Lemma Qfloor_unique (q : Q) (f : Z) :
  (inject_Z f <= q < inject_Z (f + 1))%Q -> Qfloor q = f.
Proof.
  intros [Hlo Hhi].
  pose proof (Qfloor_le q) as Hfl.
  pose proof (Qlt_floor q) as Hfh.
  assert (H1 : (inject_Z (Qfloor q) < inject_Z (f + 1))%Q)
    by (eapply Qle_lt_trans; eassumption).
  assert (H2 : (inject_Z f < inject_Z (Qfloor q + 1))%Q)
    by (eapply Qle_lt_trans; eassumption).
  rewrite <- Zlt_Qlt in H1, H2. lia.
Qed.

Lemma round_half_even_comp (p q : Q) :
  (p == q)%Q -> round_half_even p = round_half_even q.
Proof.
  intros Heq. unfold round_half_even.
  rewrite (Qfloor_comp p q Heq).
  assert (Hc : (p - inject_Z (Qfloor q) ?= 1 # 2)%Q =
               (q - inject_Z (Qfloor q) ?= 1 # 2)%Q)
    by (apply Qcompare_comp; [now rewrite Heq | reflexivity]).
  now rewrite Hc.
Qed.

Lemma round_half_even_inject (z : Z) : round_half_even (inject_Z z) = z.
Proof.
  unfold round_half_even. rewrite Qfloor_Z.
  destruct (inject_Z z - inject_Z z ?= 1 # 2)%Q eqn:Hc; [| reflexivity |].
  - apply Qeq_alt in Hc. exfalso. lra.
  - apply Qgt_alt in Hc. exfalso. lra.
Qed.

Lemma round_half_even_monotone (p q : Q) :
  (p <= q)%Q -> round_half_even p <= round_half_even q.
Proof.
  intros Hpq.
  destruct (Z_le_gt_dec (round_half_even p) (round_half_even q))
    as [Hle | Hgt]; [exact Hle | exfalso].
  pose proof (round_half_even_nearest p) as Hp.
  pose proof (round_half_even_nearest q) as Hq.
  apply Qabs_Qle_condition in Hp. apply Qabs_Qle_condition in Hq.
  assert (Hz : (inject_Z (round_half_even q) + 1 <=
                inject_Z (round_half_even p))%Q).
  { change 1%Q with (inject_Z 1). rewrite <- inject_Z_plus.
    rewrite <- Zle_Qle. lia. }
  assert (Heq : (p == q)%Q) by lra.
  apply round_half_even_comp in Heq. lia.
Qed.

Section PowersOfTwo.

Lemma pow2_pos (e : Z) : (0 < pow2 e)%Q.
Proof. apply Qpower_0_lt. reflexivity. Qed.

Lemma pow2_add (a b : Z) : (pow2 (a + b) == pow2 a * pow2 b)%Q.
Proof. apply Qpower_plus. discriminate. Qed.

Lemma pow2_opp (a : Z) : (pow2 (- a) == / pow2 a)%Q.
Proof. apply Qpower_opp. Qed.

Lemma pow2_le (a b : Z) : a <= b -> (pow2 a <= pow2 b)%Q.
Proof. intros H. apply Qpower_le_compat_l; [exact H | discriminate]. Qed.

Lemma pow2_lt (a b : Z) : a < b -> (pow2 a < pow2 b)%Q.
Proof. intros H. apply Qpower_lt_compat_l; [exact H | reflexivity]. Qed.

Lemma pow2_lt_inv (a b : Z) : (pow2 a < pow2 b)%Q -> a < b.
Proof. intros H. eapply Qpower_lt_compat_l_inv; [exact H | reflexivity]. Qed.

Lemma pow2_inject (a : Z) : 0 <= a -> (pow2 a == inject_Z (2 ^ a))%Q.
Proof. intros H. symmetry. now apply Zpower_Qpower. Qed.

Lemma pow2_succ (a : Z) : (pow2 (a + 1) == 2 * pow2 a)%Q.
Proof. rewrite pow2_add. change (pow2 1) with 2%Q. ring. Qed.

End PowersOfTwo.

(** The binade of a positive rational is the exponent that brackets it. *)
Lemma binade_spec (q : Q) :
  (0 < q)%Q -> (pow2 (binade q) <= q < pow2 (binade q + 1))%Q.
Proof.
  intros Hq. destruct q as [n d].
  assert (Hn : 0 < n) by (unfold Qlt in Hq; cbn in Hq; lia).
  unfold binade. cbn [Qnum Qden].
  set (ln := Z.log2 n). set (ld := Z.log2 (Z.pos d)).
  assert (Hln : 2 ^ ln <= n < 2 ^ (ln + 1))
    by (pose proof (Z.log2_spec n Hn); now rewrite <- Z.add_1_r in *).
  assert (Hld : 2 ^ ld <= Z.pos d < 2 ^ (ld + 1)).
  { pose proof (Z.log2_spec (Z.pos d) ltac:(lia)) as H.
    now rewrite <- Z.add_1_r in H. }
  assert (Hln0 : 0 <= ln) by apply Z.log2_nonneg.
  assert (Hld0 : 0 <= ld) by apply Z.log2_nonneg.
  assert (Hup : (n # d < pow2 (ln - ld + 1))%Q).
  { replace (ln - ld + 1) with ((ln + 1) + - ld) by lia.
    rewrite pow2_add, pow2_opp, (pow2_inject (ln + 1)), (pow2_inject ld)
      by lia.
    apply Qlt_shift_div_l.
    - change 0%Q with (inject_Z 0). rewrite <- Zlt_Qlt. lia.
    - unfold Qlt, Qmult, inject_Z. cbn [Qnum Qden].
      rewrite Pos.mul_1_r. nia. }
  assert (Hlo : (pow2 (ln - ld - 1) <= n # d)%Q).
  { replace (ln - ld - 1) with (ln + - (ld + 1)) by lia.
    rewrite pow2_add, pow2_opp, (pow2_inject ln), (pow2_inject (ld + 1))
      by lia.
    apply Qle_shift_div_r.
    - change 0%Q with (inject_Z 0). rewrite <- Zlt_Qlt. lia.
    - unfold Qle, Qmult, inject_Z. cbn [Qnum Qden].
      rewrite Pos.mul_1_r. nia. }
  destruct (Qle_bool (pow2 (ln - ld)) (n # d)) eqn:Hb.
  - apply Qle_bool_iff in Hb. split; assumption.
  - split; [exact Hlo |].
    replace (ln - ld - 1 + 1) with (ln - ld) by lia.
    apply Qnot_le_lt. intros Hle. apply Qle_bool_iff in Hle. congruence.
Qed.

Lemma binade_unique (q : Q) (e : Z) :
  (pow2 e <= q < pow2 (e + 1))%Q -> binade q = e.
Proof.
  intros [Hlo Hhi].
  assert (Hq : (0 < q)%Q)
    by (eapply Qlt_le_trans; [apply (pow2_pos e) | exact Hlo]).
  destruct (binade_spec q Hq) as [Blo Bhi].
  assert (H1 : binade q < e + 1)
    by (apply pow2_lt_inv; eapply Qle_lt_trans; eassumption).
  assert (H2 : e < binade q + 1)
    by (apply pow2_lt_inv; eapply Qle_lt_trans; eassumption).
  lia.
Qed.

Lemma binade_monotone (p q : Q) :
  (0 < p)%Q -> (p <= q)%Q -> binade p <= binade q.
Proof.
  intros Hp Hpq.
  assert (Hq : (0 < q)%Q) by (eapply Qlt_le_trans; eassumption).
  destruct (binade_spec p Hp) as [Plo _].
  destruct (binade_spec q Hq) as [_ Qhi].
  assert (H : binade p < binade q + 1).
  { apply pow2_lt_inv. eapply Qle_lt_trans; [exact Plo |].
    eapply Qle_lt_trans; eassumption. }
  lia.
Qed.

Lemma binade_comp (p q : Q) :
  (0 < p)%Q -> (p == q)%Q -> binade p = binade q.
Proof.
  intros Hp Heq. symmetry. apply binade_unique.
  rewrite <- Heq. now apply binade_spec.
Qed.

Section RoundPositive.

Variable q : Q.
Hypothesis Hq : (0 < q)%Q.

Lemma quantum_pos : (0 < pow2 (quantum q))%Q.
Proof. apply pow2_pos. Qed.

Lemma pow2_above_quantum (k : Z) :
  (pow2 (k + quantum q) == pow2 k * pow2 (quantum q))%Q.
Proof. apply pow2_add. Qed.

Lemma round_half_even_pow2 (k : Z) :
  0 <= k -> round_half_even (pow2 k) = 2 ^ k.
Proof.
  intros Hk. rewrite (round_half_even_comp _ _ (pow2_inject k Hk)).
  apply round_half_even_inject.
Qed.

(** The rounded value is never below zero, nor above the next power of
    two. *)
Lemma round_pos_nonneg : (0 <= round_pos q)%Q.
Proof.
  unfold round_pos. apply Qmult_le_0_compat; [| apply Qlt_le_weak, pow2_pos].
  change 0%Q with (inject_Z 0). rewrite <- Zle_Qle.
  rewrite <- (round_half_even_inject 0). apply round_half_even_monotone.
  change (inject_Z 0) with 0%Q.
  apply Qle_shift_div_l; [apply pow2_pos |]. rewrite Qmult_0_l.
  now apply Qlt_le_weak.
Qed.

Lemma round_pos_upper :
  (round_pos q <= pow2 (Z.max (binade q) (-1022) + 1))%Q.
Proof.
  destruct (binade_spec q Hq) as [_ Hhi].
  assert (Hup : (q < pow2 (Z.max (binade q) (-1022) + 1))%Q).
  { eapply Qlt_le_trans; [exact Hhi |]. apply pow2_le. lia. }
  assert (Hsplit : (pow2 (Z.max (binade q) (-1022) + 1) ==
                    pow2 53 * pow2 (quantum q))%Q).
  { rewrite <- pow2_add. unfold quantum.
    replace (53 + (Z.max (binade q) (-1022) - 52))
      with (Z.max (binade q) (-1022) + 1) by lia. reflexivity. }
  rewrite Hsplit in Hup |- *.
  unfold round_pos. apply Qmult_le_compat_r; [| apply Qlt_le_weak, pow2_pos].
  rewrite (pow2_inject 53) by lia. rewrite <- Zle_Qle.
  rewrite <- (round_half_even_pow2 53) by lia.
  apply round_half_even_monotone. apply Qlt_le_weak.
  apply Qlt_shift_div_r; [apply pow2_pos | exact Hup].
Qed.

(** In the normal range the rounded value stays in the binade, or is
    the next power of two. *)
Lemma round_pos_lower :
  -1022 <= binade q -> (pow2 (binade q) <= round_pos q)%Q.
Proof.
  intros Hnormal.
  destruct (binade_spec q Hq) as [Hlo _].
  assert (Hsplit : (pow2 (binade q) == pow2 52 * pow2 (quantum q))%Q).
  { rewrite <- pow2_add. unfold quantum.
    replace (52 + (Z.max (binade q) (-1022) - 52)) with (binade q) by lia.
    reflexivity. }
  rewrite Hsplit in Hlo |- *.
  unfold round_pos. apply Qmult_le_compat_r; [| apply Qlt_le_weak, pow2_pos].
  rewrite (pow2_inject 52) by lia. rewrite <- Zle_Qle.
  rewrite <- (round_half_even_pow2 52) by lia.
  apply round_half_even_monotone.
  apply Qle_shift_div_l; [apply pow2_pos | exact Hlo].
Qed.

(** The rounding error is at most half a unit in the last place. *)
Lemma round_pos_error :
  (Qabs (round_pos q - q) <= pow2 (quantum q) * (1 # 2))%Q.
Proof.
  pose proof (round_half_even_nearest (q / pow2 (quantum q))) as Hn.
  pose proof quantum_pos as Hu.
  unfold round_pos.
  set (z := inject_Z (round_half_even (q / pow2 (quantum q)))) in *.
  assert (Heq : (z * pow2 (quantum q) - q ==
                 - (q / pow2 (quantum q) - z) * pow2 (quantum q))%Q).
  { field. intros H0. rewrite H0 in Hu. discriminate Hu. }
  rewrite Heq, Qabs_Qmult, Qabs_opp.
  rewrite (Qabs_pos (pow2 (quantum q))) by now apply Qlt_le_weak.
  rewrite (Qmult_comm (pow2 (quantum q)) (1 # 2)).
  apply Qmult_le_compat_r; [exact Hn | now apply Qlt_le_weak].
Qed.

Lemma round_pos_relative_error :
  -1022 <= binade q ->
  (Qabs (round_pos q - q) <= pow2 (-53) * q)%Q.
Proof.
  intros Hnormal.
  destruct (binade_spec q Hq) as [Hlo _].
  eapply Qle_trans; [apply round_pos_error |].
  assert (Hhalf : (pow2 (quantum q) * (1 # 2) ==
                   pow2 (-53) * pow2 (binade q))%Q).
  { rewrite <- pow2_add. unfold quantum.
    replace (-53 + binade q)
      with ((Z.max (binade q) (-1022) - 52) + -1) by lia.
    rewrite pow2_add. change (pow2 (-1)) with (1 # 2)%Q. reflexivity. }
  rewrite Hhalf.
  apply Qmult_le_l; [apply pow2_pos | exact Hlo].
Qed.

End RoundPositive.

Lemma round_pos_comp (p q : Q) :
  (0 < p)%Q -> (p == q)%Q -> (round_pos p == round_pos q)%Q.
Proof.
  intros Hp Heq. unfold round_pos, quantum.
  rewrite (binade_comp p q Hp Heq).
  assert (Hdiv : (p / pow2 (Z.max (binade q) (-1022) - 52) ==
                  q / pow2 (Z.max (binade q) (-1022) - 52))%Q)
    by now rewrite Heq.
  now rewrite (round_half_even_comp _ _ Hdiv).
Qed.

Lemma round_pos_monotone (p q : Q) :
  (0 < p)%Q -> (p <= q)%Q -> (round_pos p <= round_pos q)%Q.
Proof.
  intros Hp Hpq.
  assert (Hq : (0 < q)%Q) by (eapply Qlt_le_trans; eassumption).
  pose proof (binade_monotone p q Hp Hpq) as Hb.
  destruct (Z.eq_dec (Z.max (binade p) (-1022)) (Z.max (binade q) (-1022)))
    as [Hsame | Hdiff].
  - unfold round_pos, quantum. rewrite Hsame.
    apply Qmult_le_compat_r; [| apply Qlt_le_weak, pow2_pos].
    rewrite <- Zle_Qle. apply round_half_even_monotone.
    apply Qmult_le_compat_r; [exact Hpq |].
    apply Qlt_le_weak, Qinv_lt_0_compat, pow2_pos.
  - eapply Qle_trans; [apply (round_pos_upper p Hp) |].
    eapply Qle_trans; [| apply (round_pos_lower q Hq); lia].
    apply pow2_le. lia.
Qed.

Lemma round64_zero (q : Q) : (q == 0)%Q -> round64 q = Finite 0.
Proof.
  intros Hq. unfold round64, Qsign.
  now rewrite (proj1 (Qeq_alt q 0) Hq).
Qed.

Lemma round64_positive (q : Q) :
  (0 < q)%Q ->
  round64 q =
  if Qle_bool (pow2 1024) (round_pos q) then PosInf else Finite (round_pos q).
Proof.
  intros Hq. unfold round64, Qsign.
  now rewrite (proj1 (Qgt_alt q 0) Hq).
Qed.

Lemma round64_negative (q : Q) :
  (q < 0)%Q ->
  round64 q =
  if Qle_bool (pow2 1024) (round_pos (- q))
  then NegInf else Finite (- round_pos (- q)).
Proof.
  intros Hq. unfold round64, Qsign.
  now rewrite (proj1 (Qlt_alt q 0) Hq).
Qed.

Lemma no_overflow_below (q : Q) :
  (0 < q)%Q -> (q < pow2 1023)%Q ->
  Qle_bool (pow2 1024) (round_pos q) = false.
Proof.
  intros Hq Hlt.
  destruct (binade_spec q Hq) as [Hlo _].
  assert (Hb : binade q < 1023)
    by (apply pow2_lt_inv; eapply Qle_lt_trans; eassumption).
  destruct (Qle_bool (pow2 1024) (round_pos q)) eqn:Hle; [| reflexivity].
  apply Qle_bool_iff in Hle. exfalso.
  pose proof (round_pos_upper q Hq) as Hup.
  assert (Hcontra : (pow2 1024 <= pow2 1023)%Q).
  { eapply Qle_trans; [exact Hle |]. eapply Qle_trans; [exact Hup |].
    apply pow2_le. lia. }
  assert (Hlt' : (pow2 1023 < pow2 1024)%Q) by (apply pow2_lt; lia).
  apply (Qlt_irrefl (pow2 1023)). eapply Qlt_le_trans; eassumption.
Qed.

(** A positive number below [2^1023] rounds to a finite double. *)
Lemma round64_finite (q : Q) :
  (0 < q)%Q -> (q < pow2 1023)%Q -> round64 q = Finite (round_pos q).
Proof.
  intros Hq Hlt. rewrite (round64_positive q Hq).
  now rewrite (no_overflow_below q Hq Hlt).
Qed.

(** Rounding keeps the order. *)
Lemma round64_monotone (p q : Q) :
  (p <= q)%Q -> fle (round64 p) (round64 q).
Proof.
  intros Hpq.
  destruct (Q_dec p 0) as [[Hp | Hp] | Hp];
    destruct (Q_dec q 0) as [[Hq | Hq] | Hq]; try (exfalso; lra).
  - (* both negative *)
    rewrite (round64_negative p Hp), (round64_negative q Hq).
    assert (Hnq : (0 < - q)%Q) by lra.
    assert (Hmon : (round_pos (- q) <= round_pos (- p))%Q)
      by (apply round_pos_monotone; lra).
    destruct (Qle_bool (pow2 1024) (round_pos (- p))) eqn:Hop;
      destruct (Qle_bool (pow2 1024) (round_pos (- q))) eqn:Hoq;
      cbn [fle]; try exact I.
    + apply Qle_bool_iff in Hoq.
      assert (Hc : Qle_bool (pow2 1024) (round_pos (- p)) = true)
        by (apply Qle_bool_iff; eapply Qle_trans; eassumption).
      congruence.
    + lra.
  - (* negative, positive *)
    rewrite (round64_negative p Hp), (round64_positive q Hq).
    pose proof (round_pos_nonneg (- p) ltac:(lra)).
    pose proof (round_pos_nonneg q Hq).
    destruct (Qle_bool _ (round_pos (- p)));
      destruct (Qle_bool _ (round_pos q)); cbn [fle]; try exact I. lra.
  - (* negative, zero *)
    rewrite (round64_negative p Hp), (round64_zero q Hq).
    pose proof (round_pos_nonneg (- p) ltac:(lra)).
    destruct (Qle_bool _ (round_pos (- p))); cbn [fle]; [exact I | lra].
  - (* both positive *)
    rewrite (round64_positive p Hp), (round64_positive q Hq).
    assert (Hmon : (round_pos p <= round_pos q)%Q)
      by now apply round_pos_monotone.
    destruct (Qle_bool (pow2 1024) (round_pos p)) eqn:Hop;
      destruct (Qle_bool (pow2 1024) (round_pos q)) eqn:Hoq;
      cbn [fle]; try exact I; [| exact Hmon].
    apply Qle_bool_iff in Hop.
    assert (Hc : Qle_bool (pow2 1024) (round_pos q) = true)
      by (apply Qle_bool_iff; eapply Qle_trans; eassumption).
    congruence.
  - (* zero, positive *)
    rewrite (round64_zero p Hp), (round64_positive q Hq).
    pose proof (round_pos_nonneg q Hq).
    destruct (Qle_bool _ (round_pos q)); cbn [fle]; [exact I | assumption].
  - (* both zero *)
    rewrite (round64_zero p Hp), (round64_zero q Hq). cbn [fle]. lra.
Qed.

(** In the normal range a rounding is finite and off by at most
    [2^-53], relatively. *)
Lemma round64_relative_error (q : Q) :
  (pow2 (-1022) <= Qabs q)%Q -> (Qabs q < pow2 1023)%Q ->
  exists r : Q,
    round64 q = Finite r /\
    (Qabs (r - q) <= pow2 (-53) * Qabs q)%Q.
Proof.
  intros Hlo Hhi.
  pose proof (pow2_pos (-1022)) as Hmin.
  destruct (Q_dec q 0) as [[Hq | Hq] | Hq].
  - (* negative *)
    assert (Habs : (Qabs q == - q)%Q) by (apply Qabs_neg; lra).
    rewrite Habs in Hlo, Hhi.
    assert (Hnq : (0 < - q)%Q) by lra.
    assert (Hb : -1022 <= binade (- q)).
    { destruct (binade_spec (- q) Hnq) as [_ Bhi].
      assert (H : -1022 < binade (- q) + 1)
        by (apply pow2_lt_inv; eapply Qle_lt_trans; eassumption).
      lia. }
    exists (- round_pos (- q))%Q. split.
    + rewrite (round64_negative q Hq).
      now rewrite (no_overflow_below (- q) Hnq Hhi).
    + pose proof (round_pos_relative_error (- q) Hnq Hb) as Herr.
      assert (Heq : (- round_pos (- q) - q == - (round_pos (- q) - - q))%Q)
        by ring.
      now rewrite Heq, Qabs_opp, Habs.
  - (* positive *)
    assert (Habs : (Qabs q == q)%Q) by (apply Qabs_pos; lra).
    rewrite Habs in Hlo, Hhi.
    assert (Hb : -1022 <= binade q).
    { destruct (binade_spec q Hq) as [_ Bhi].
      assert (H : -1022 < binade q + 1)
        by (apply pow2_lt_inv; eapply Qle_lt_trans; eassumption).
      lia. }
    exists (round_pos q). split.
    + now apply round64_finite.
    + rewrite Habs. now apply round_pos_relative_error.
  - exfalso. rewrite Hq in Hlo. change (Qabs 0) with 0%Q in Hlo. lra.
Qed.

(* ===================================================================== *)
(** ** Properties of the membership test                                  *)
(* ===================================================================== *)

(** C1.  The membership test of [get_cluster_count] turns each coordinate
    into [int(np.round(.))], which is the nearest integer with ties going
    to the even neighbour; the rounded x selects the row and the rounded
    y the column of the mask; and the points returned as inside are
    exactly those whose cell is non-zero.  Stated for finite coordinates
    whose rounded indices lie inside the grid; and, for every call that
    returns, whatever the mask and the points: all points were finite,
    and the list returned holds the rounded points for which
    [mask[x][y]] is non-zero. *)
Theorem membership_rounds_then_indexes_row_column :
  (forall q : Q,
      py_int (np_round (Finite q)) = Ok (round_half_even q) /\
      (Qabs (q - inject_Z (round_half_even q)) <= 1 # 2)%Q /\
      ((Qabs (q - inject_Z (round_half_even q)) == 1 # 2)%Q ->
       Z.even (round_half_even q) = true)) /\
  (forall (mask : ndarray2) (r c : nat) (pts : list (Q * Q)),
      has_shape mask r c ->
      Forall (fun p => in_extent r c (rounded p)) pts ->
      get_cluster_count mask (map finite_point pts) =
      let ins :=
        List.filter
          (fun ij => negb (cell mask (Z.to_nat (fst ij)) (Z.to_nat (snd ij)) =? 0))
          (map rounded pts) in
      Ok (Z.of_nat (length ins), ins)) /\
  (forall (mask : ndarray2) (cl : list ClusterPoint)
          (count : Z) (locs : list (Z * Z)),
      get_cluster_count mask cl = Ok (count, locs) ->
      exists pts : list (Q * Q),
        cl = map finite_point pts /\
        locs = List.filter (selects_nonzero mask) (map rounded pts)).
Proof.
  split; [| split].
  - intros q. repeat split.
    + apply py_int_np_round.
    + apply round_half_even_nearest.
    + apply round_half_even_tie.
  - intros mask r c pts Hs Hin. unfold get_cluster_count.
    rewrite (count_loop_wrapped mask r c Hs).
    + cbn zeta. rewrite Z.add_0_l, app_nil_l.
      assert (Hf : List.filter (hit mask r c) (map rounded pts) =
                   List.filter
                     (fun ij => negb (cell mask (Z.to_nat (fst ij))
                                                (Z.to_nat (snd ij)) =? 0))
                     (map rounded pts)).
      { apply List.filter_ext_in. intros ij Hij.
        apply List.in_map_iff in Hij as (p & <- & Hp).
        apply hit_in_extent.
        rewrite List.Forall_forall in Hin. now apply Hin. }
      now rewrite Hf.
    + eapply List.Forall_impl; [| exact Hin].
      intros p. apply in_extent_wrapped.
  - intros mask cl count locs Hrun. unfold get_cluster_count in Hrun.
    apply count_loop_returns in Hrun as (pts & -> & _ & _ & ->).
    now exists pts.
Qed.

Lemma membership_rounds_then_indexes_row_column_witness :
  let mask := [[0; 5; 0]; [7; 0; 0]] in
  let pts := [(1 # 2, 3 # 4); (5 # 4, 1 # 4); (0, 5 # 2)]%Q in
  has_shape mask 2 3 /\
  Forall (fun p => in_extent 2 3 (rounded p)) pts /\
  get_cluster_count mask (map finite_point pts) = Ok (2, [(0, 1); (1, 0)]).
Proof.
  intros mask pts.
  assert (Hs : has_shape mask 2 3)
    by (split; [reflexivity | repeat constructor]).
  assert (Hin : Forall (fun p => in_extent 2 3 (rounded p)) pts)
    by (repeat constructor; vm_compute; intuition discriminate).
  split; [exact Hs |]. split; [exact Hin |].
  exact (proj1 (proj2 membership_rounds_then_indexes_row_column)
           mask 2%nat 3%nat pts Hs Hin).
Defined.

(** C2 does not hold as stated: on a 2 by 2 mask the point (-1, -1)
    has rounded indices outside [[0, 2)], yet the call returns, and counts
    the point against the bottom-right cell. *)
Lemma out_of_extent_not_always_fatal :
  ~ (forall (mask : ndarray2) (r c : nat) (pts : list (Q * Q)) (p : Q * Q),
        has_shape mask r c ->
        In p pts ->
        ~ in_extent r c (rounded p) ->
        get_cluster_count mask (map finite_point pts) = Raise IndexError).
Proof.
  intros H.
  specialize (H [[0; 0]; [0; 7]] 2%nat 2%nat [(-1, -1)%Q] (-1, -1)%Q).
  assert (Hrun : get_cluster_count [[0; 0]; [0; 7]]
                   (map finite_point [(-1, -1)%Q]) = Ok (1, [(-1, -1)]))
    by reflexivity.
  rewrite Hrun in H.
  discriminate H.
  - split; [reflexivity | repeat constructor].
  - now left.
  - vm_compute. intros [[Hx _] _]. now apply Hx.
Qed.

(** C2, amended.  On an [r] by [c] mask, a point whose rounded x is
    outside [[-r, r)] or whose rounded y is outside [[-c, c)] makes
    [get_cluster_count] fail: with [IndexError] when all coordinates are
    finite, and with some exception in any case. *)
Theorem index_outside_wrapped_extent_is_fatal :
  forall (mask : ndarray2) (r c : nat),
    has_shape mask r c ->
    (forall (pts : list (Q * Q)) (p : Q * Q),
        In p pts ->
        ~ in_wrapped_extent r c (rounded p) ->
        get_cluster_count mask (map finite_point pts) = Raise IndexError) /\
    (forall (cl : list ClusterPoint) (p : Q * Q),
        In (finite_point p) cl ->
        ~ in_wrapped_extent r c (rounded p) ->
        is_ok (get_cluster_count mask cl) = false).
Proof.
  intros mask r c Hs. split.
  - intros pts p Hin Hout. unfold get_cluster_count.
    apply (count_loop_rejects mask r c Hs).
    apply List.Exists_exists. now exists p.
  - intros cl p Hin Hout. unfold get_cluster_count.
    now apply (count_loop_not_ok mask r c Hs cl p).
Qed.

Lemma index_outside_wrapped_extent_is_fatal_witness :
  let mask := [[1; 1; 1; 1]; [1; 1; 1; 1]; [1; 1; 1; 1]; [1; 1; 1; 1]] in
  let pts := [(0, 0); (1, 1); (5, 5)]%Q in
  has_shape mask 4 4 /\
  get_cluster_count mask (map finite_point pts) = Raise IndexError.
Proof.
  intros mask pts.
  assert (Hs : has_shape mask 4 4)
    by (split; [reflexivity | repeat constructor]).
  split; [exact Hs |].
  apply (proj1 (index_outside_wrapped_extent_is_fatal mask 4%nat 4%nat Hs)
               pts (5, 5)%Q).
  - right. right. now left.
  - vm_compute. intros [[_ Hx] _]. discriminate Hx.
Defined.

(** C8.  When [get_cluster_count] returns, the count lies between 0 and
    the number of points, and the returned list is a subsequence, in the
    order of the input, of the rounded input points. *)
Theorem count_bounded_and_order_kept :
  forall (mask : ndarray2) (cl : list ClusterPoint)
         (count : Z) (locs : list (Z * Z)),
    get_cluster_count mask cl = Ok (count, locs) ->
    0 <= count <= Z.of_nat (length cl) /\
    exists pts : list (Q * Q),
      cl = map finite_point pts /\ sublist locs (map rounded pts).
Proof.
  intros mask cl count locs Hrun. unfold get_cluster_count in Hrun.
  apply count_loop_returns in Hrun as (pts & -> & _ & -> & ->).
  pose proof (filter_sublist (selects_nonzero mask) (map rounded pts)) as Hsub.
  cbn [app]. split.
  - apply sublist_length in Hsub.
    rewrite !length_map in *. lia.
  - exists pts. now split.
Qed.

Lemma count_bounded_and_order_kept_witness :
  let mask := [[0; 5; 0]; [7; 0; 0]] in
  let cl := map finite_point [(1 # 2, 3 # 4); (0, 5 # 2); (5 # 4, 1 # 4)]%Q in
  get_cluster_count mask cl = Ok (2, [(0, 1); (1, 0)]) /\
  0 <= 2 <= Z.of_nat (length cl).
Proof.
  intros mask cl.
  assert (Hrun : get_cluster_count mask cl = Ok (2, [(0, 1); (1, 0)]))
    by reflexivity.
  split; [exact Hrun |].
  exact (proj1 (count_bounded_and_order_kept mask cl 2 [(0, 1); (1, 0)] Hrun)).
Defined.

(** C10 does not hold as stated: on a 2 by 2 mask the point (-1, 5)
    has its rounded x in [[-2, -1]], and the call still raises
    [IndexError], for the column. *)
Lemma negative_index_can_still_raise :
  ~ (forall (mask : ndarray2) (r c : nat) (p : Q * Q),
        has_shape mask r c ->
        (- Z.of_nat r <= fst (rounded p) <= -1 \/
         - Z.of_nat c <= snd (rounded p) <= -1) ->
        get_cluster_count mask [finite_point p] <> Raise IndexError).
Proof.
  intros H.
  apply (H [[1; 1]; [1; 1]] 2%nat 2%nat (-1, 5)%Q).
  - split; [reflexivity | repeat constructor].
  - left. vm_compute. intuition discriminate.
  - reflexivity.
Qed.

(** C10, amended.  On an [r] by [c] mask, points whose rounded x lies in
    [[-r, r)] and whose rounded y lies in [[-c, c)] raise no indexing
    error: an index [i] is taken modulo the length [n] of its axis, so a
    negative one selects cell [n + i], counted from the opposite edge,
    and the point is inside when that cell is non-zero.  Whenever the
    call returns, the count equals the length of the returned list. *)
Theorem negative_index_wraps_and_count_is_length :
  (forall (mask : ndarray2) (r c : nat) (pts : list (Q * Q)),
      has_shape mask r c ->
      Forall (fun p => in_wrapped_extent r c (rounded p)) pts ->
      get_cluster_count mask (map finite_point pts) =
      let ins := List.filter (hit mask r c) (map rounded pts) in
      Ok (Z.of_nat (length ins), ins)) /\
  (forall (n : nat) (i : Z),
      - Z.of_nat n <= i <= -1 -> i mod Z.of_nat n = Z.of_nat n + i) /\
  (forall (mask : ndarray2) (cl : list ClusterPoint)
          (count : Z) (locs : list (Z * Z)),
      get_cluster_count mask cl = Ok (count, locs) ->
      count = Z.of_nat (length locs)).
Proof.
  repeat split.
  - intros mask r c pts Hs Hin. unfold get_cluster_count.
    rewrite (count_loop_wrapped mask r c Hs pts Hin).
    cbn zeta. now rewrite Z.add_0_l, app_nil_l.
  - intros n i Hi. symmetry.
    apply Z.mod_unique with (q := -1); lia.
  - intros mask cl count locs Hrun. unfold get_cluster_count in Hrun.
    apply count_loop_returns in Hrun as (pts & _ & _ & -> & ->).
    cbn [app]. lia.
Qed.

Lemma negative_index_wraps_and_count_is_length_witness :
  let mask := [[0; 0; 0]; [0; 0; 7]] in
  let pts := [(-1, -1); (-2, 1); (1, -1)]%Q in
  has_shape mask 2 3 /\
  Forall (fun p => in_wrapped_extent 2 3 (rounded p)) pts /\
  get_cluster_count mask (map finite_point pts) = Ok (2, [(-1, -1); (1, -1)]).
Proof.
  intros mask pts.
  assert (Hs : has_shape mask 2 3)
    by (split; [reflexivity | repeat constructor]).
  assert (Hin : Forall (fun p => in_wrapped_extent 2 3 (rounded p)) pts)
    by (repeat constructor; vm_compute; intuition discriminate).
  split; [exact Hs |]. split; [exact Hin |].
  exact (proj1 negative_index_wraps_and_count_is_length mask 2%nat 3%nat pts Hs Hin).
Defined.

(* ===================================================================== *)
(** ** Properties of the coordinate loader                                *)
(* ===================================================================== *)

Lemma round64_close (q : Q) :
  (pow2 (-1022) <= Qabs q)%Q -> (Qabs q < pow2 1023)%Q ->
  exists r : Q,
    round64 q = Finite r /\
    (- ((1 # 9007199254740992) * Qabs q) <= r - q
     <= (1 # 9007199254740992) * Qabs q)%Q.
Proof.
  intros Hlo Hhi.
  destruct (round64_relative_error q Hlo Hhi) as (r & Hr & Herr).
  exists r. split; [exact Hr |].
  apply Qabs_Qle_condition. exact Herr.
Qed.






(* ===================================================================== *)
(** ** Properties of the mask reader                                      *)
(* ===================================================================== *)

Lemma cell_grid_init (h w : nat) (f : nat -> nat -> Z) (y x : nat) :
  (y < h)%nat -> (x < w)%nat -> cell (grid_init h w f) y x = f y x.
Proof.
  intros Hy Hx. unfold cell, grid_init.
  rewrite (nth_indep _ [] ((fun y => map (fun x => f y x) (seq 0 w)) 0%nat))
    by (rewrite length_map, length_seq; exact Hy).
  rewrite (map_nth (fun y => map (fun x => f y x) (seq 0 w))).
  rewrite seq_nth by exact Hy. cbn [Nat.add].
  rewrite (nth_indep _ 0 ((fun x => f y x) 0%nat))
    by (rewrite length_map, length_seq; exact Hx).
  rewrite (map_nth (fun x => f y x)).
  now rewrite seq_nth by exact Hx.
Qed.

Lemma grid_init_shape (h w : nat) (f : nat -> nat -> Z) :
  has_shape (grid_init h w f) h w.
Proof.
  unfold has_shape, grid_init. split.
  - now rewrite length_map, length_seq.
  - apply List.Forall_forall. intros row Hrow.
    apply List.in_map_iff in Hrow as (y & <- & _).
    now rewrite length_map, length_seq.
Qed.









(* ===================================================================== *)
(** ** Properties of the mask area                                        *)
(* ===================================================================== *)

Lemma wrap64_small (z : Z) : 0 <= z < 2 ^ 64 -> wrap64 z = z.
Proof. intros Hz. unfold wrap64. now apply Z.mod_small. Qed.

(** Summing the binarised cells counts the non-zero ones, as long as the
    running total fits the accumulator. *)
Lemma sum_binarised (cells : list Z) :
  Forall is_uint8 cells ->
  forall acc : Z,
    0 <= acc ->
    acc + Z.of_nat (length cells) < 2 ^ 64 ->
    fold_left (fun acc v => wrap64 (acc + v))
              (map (fun v => if 0 <? v then 1 else v) cells) acc =
    acc + Z.of_nat (length (List.filter (fun v => negb (v =? 0)) cells)).
Proof.
  induction 1 as [| v cells Hv _ IH]; intros acc Hacc Hfit.
  - cbn. lia.
  - cbn [map fold_left List.filter length] in *.
    unfold is_uint8 in Hv.
    destruct (Z.ltb_spec 0 v); destruct (Z.eqb_spec v 0); try lia; cbn [negb].
    + rewrite wrap64_small by lia. rewrite IH by lia. cbn [length]. lia.
    + rewrite wrap64_small by lia. rewrite IH by lia. lia.
Qed.

Lemma get_mask_area_px (mask : ndarray2) :
  fst (get_mask_area mask) = np_sum (np_where_positive mask).
Proof. reflexivity. Qed.

Lemma np_sum_range (a : ndarray2) : 0 <= np_sum a < 2 ^ 64.
Proof.
  unfold np_sum. generalize (concat a) as cells. intros cells.
  assert (H : forall acc, 0 <= acc < 2 ^ 64 ->
              0 <= fold_left (fun acc v => wrap64 (acc + v)) cells acc < 2 ^ 64).
  { induction cells as [| v cells IH]; intros acc Hacc; [exact Hacc |].
    cbn [fold_left]. apply IH. unfold wrap64. apply Z.mod_pos_bound. lia. }
  apply H. lia.
Qed.

(** The square of the pixel size in micrometres, as the doubles give
    it. *)
Lemma pixel_area_um :
  fsquare (fdiv (of_int PX_SIZE_CLUSTERS) (of_int 1000)) =
  Finite (7378697629483821 # 73786976294838206464).
Proof. vm_compute. reflexivity. Qed.

Lemma get_mask_area_um (mask : ndarray2) :
  snd (get_mask_area mask) =
  fmul (of_int (fst (get_mask_area mask)))
       (Finite (7378697629483821 # 73786976294838206464)).
Proof.
  rewrite <- pixel_area_um. reflexivity.
Qed.

(** An unsigned 64-bit integer converts to a double that is not
    negative, is zero only for zero, and is within [2^-53], relatively,
    of the integer. *)
Lemma of_int_unsigned (z : Z) :
  0 <= z < 2 ^ 64 ->
  exists a : Q,
    of_int z = Finite a /\
    (z = 0 -> a = 0%Q) /\
    (- ((1 # 9007199254740992) * inject_Z z) <= a - inject_Z z
     <= (1 # 9007199254740992) * inject_Z z)%Q.
Proof.
  intros [Hlo Hhi]. unfold of_int.
  destruct (Z.eq_dec z 0) as [-> | Hnz].
  - exists 0%Q. split; [reflexivity |]. split; [reflexivity |].
    change (inject_Z 0) with 0%Q. lra.
  - assert (H1 : (1 <= inject_Z z)%Q)
      by (change 1%Q with (inject_Z 1); rewrite <- Zle_Qle; lia).
    assert (H2 : (inject_Z z < inject_Z (2 ^ 64))%Q)
      by (rewrite <- Zlt_Qlt; exact Hhi).
    assert (Habs : (Qabs (inject_Z z) == inject_Z z)%Q)
      by (apply Qabs_pos; lra).
    assert (P1 : (pow2 (-1022) <= pow2 0)%Q) by (apply pow2_le; lia).
    assert (P2 : (pow2 64 < pow2 1023)%Q) by (apply pow2_lt; lia).
    change (pow2 0) with 1%Q in P1.
    assert (P3 : (pow2 64 == inject_Z (2 ^ 64))%Q)
      by (apply pow2_inject; lia).
    destruct (round64_close (inject_Z z)) as (a & Ha & Herr).
    { rewrite Habs. lra. }
    { rewrite Habs. lra. }
    exists a. split; [exact Ha |]. split; [intros Hz; contradiction |].
    rewrite Habs in Herr. exact Herr.
Qed.

(** A larger integer never converts to a smaller double. *)
Lemma of_int_monotone (y z : Z) : y <= z -> fle (of_int y) (of_int z).
Proof.
  intros Hyz. unfold of_int. apply round64_monotone.
  now rewrite <- Zle_Qle.
Qed.

(** The area in square micrometres of [px] pixels: finite, not
    negative, and within [2^-50], relatively, of [px / 10000]. *)
Lemma area_um_close (px : Z) :
  0 <= px < 2 ^ 64 ->
  exists r : Q,
    fmul (of_int px) (Finite (7378697629483821 # 73786976294838206464)) =
    Finite r /\
    (0 <= r)%Q /\
    (px = 0 -> r = 0%Q) /\
    (0 < px -> (0 < r)%Q) /\
    (Qabs (r - inject_Z px * (1 # 10000)) <=
     pow2 (-50) * (inject_Z px * (1 # 10000)))%Q.
Proof.
  intros Hpx.
  destruct (of_int_unsigned px Hpx) as (a & Ha & Hzero & Haerr).
  rewrite Ha. cbn [fmul].
  change (pow2 (-50)) with (1 # 1125899906842624)%Q.
  set (k := (7378697629483821 # 73786976294838206464)%Q).
  destruct (Z.eq_dec px 0) as [Hz | Hnz].
  - exists 0%Q. rewrite (Hzero Hz). split; [reflexivity |].
    split; [lra |]. split; [reflexivity |]. split; [lia |].
    subst px. change (inject_Z 0) with 0%Q.
    apply Qabs_Qle_condition. lra.
  - assert (H1 : (1 <= inject_Z px)%Q)
      by (change 1%Q with (inject_Z 1); rewrite <- Zle_Qle; lia).
    assert (H2 : (inject_Z px < inject_Z (2 ^ 64))%Q)
      by (rewrite <- Zlt_Qlt; apply Hpx).
    assert (P1 : (pow2 (-1022) <= pow2 (-20))%Q) by (apply pow2_le; lia).
    change (pow2 (-20)) with (1 # 1048576)%Q in P1.
    assert (P2 : (pow2 64 < pow2 1023)%Q) by (apply pow2_lt; lia).
    assert (P3 : (pow2 64 == inject_Z (2 ^ 64))%Q)
      by (apply pow2_inject; lia).
    assert (Hk : (a * k == a * (7378697629483821 # 73786976294838206464))%Q)
      by reflexivity.
    assert (Hpos : (0 < a * k)%Q) by (rewrite Hk; lra).
    assert (Habs : (Qabs (a * k) == a * k)%Q) by (apply Qabs_pos; lra).
    destruct (round64_close (a * k)) as (r & Hr & Hrerr).
    { rewrite Habs, Hk. lra. }
    { rewrite Habs, Hk. lra. }
    exists r. split; [exact Hr |].
    rewrite Habs, Hk in Hrerr.
    split; [lra |]. split; [intros Hz; contradiction |].
    split; [intros _; lra |].
    apply Qabs_Qle_condition. lra.
Qed.

(** The area in square micrometres never decreases with the count of
    pixels. *)
Lemma area_um_monotone (p1 p2 : Z) :
  0 <= p1 -> p1 <= p2 -> p2 < 2 ^ 64 ->
  fle (fmul (of_int p1) (Finite (7378697629483821 # 73786976294838206464)))
      (fmul (of_int p2) (Finite (7378697629483821 # 73786976294838206464))).
Proof.
  intros H0 Hle Hhi.
  pose proof (of_int_monotone p1 p2 Hle) as Hmon.
  destruct (of_int_unsigned p1 ltac:(lia)) as (a1 & Ha1 & _ & _).
  destruct (of_int_unsigned p2 ltac:(lia)) as (a2 & Ha2 & _ & _).
  rewrite Ha1, Ha2 in Hmon |- *. cbn [fle] in Hmon. cbn [fmul].
  apply round64_monotone.
  apply Qmult_le_compat_r; [exact Hmon |].
  discriminate.
Qed.

(** Three cells of 10 nm: the area is the double next above 0.0003, not
    the number 3 / 10000. *)
Remark area_of_three_cells :
  feq (snd (get_mask_area [[1; 1; 1]]))
      (Finite (2767011611056433 # 9223372036854775808)) /\
  ~ feq (snd (get_mask_area [[1; 1; 1]])) (Finite (3 # 10000)).
Proof.
  split; vm_compute; [reflexivity | discriminate].
Qed.

(** C5.  For an 8-bit mask (whose cell count fits the 64-bit
    accumulator of the sum), [area_px] is the number of non-zero cells.
    For every mask, [area_um] is [area_px] times the square of the pixel
    size in micrometres, computed in doubles: the pixel size divided by
    1000, squared, times the count converted to a double; it is finite,
    not negative, and within [2^-50], relatively, of [area_px / 10000].
    A larger [area_px] never gives a smaller [area_um]. *)
Theorem mask_area_counts_cells_and_scales :
  (forall mask : ndarray2,
      uint8_array mask ->
      Z.of_nat (length (concat mask)) < 2 ^ 64 ->
      fst (get_mask_area mask) = count_nonzero mask) /\
  (forall mask : ndarray2,
      snd (get_mask_area mask) =
      fmul (of_int (fst (get_mask_area mask)))
           (fsquare (fdiv (of_int PX_SIZE_CLUSTERS) (of_int 1000))) /\
      exists r : Q,
        snd (get_mask_area mask) = Finite r /\
        (0 <= r)%Q /\
        (Qabs (r - inject_Z (fst (get_mask_area mask)) *
                   (inject_Z PX_SIZE_CLUSTERS / 1000) ^ 2) <=
         pow2 (-50) * (inject_Z (fst (get_mask_area mask)) *
                       (inject_Z PX_SIZE_CLUSTERS / 1000) ^ 2))%Q) /\
  (forall m1 m2 : ndarray2,
      fst (get_mask_area m1) <= fst (get_mask_area m2) ->
      fle (snd (get_mask_area m1)) (snd (get_mask_area m2))).
Proof.
  split; [| split].
  - intros mask Hu Hfit. rewrite get_mask_area_px.
    unfold np_sum, np_where_positive, count_nonzero.
    rewrite <- concat_map.
    rewrite sum_binarised; [lia | | lia | lia].
    apply List.Forall_concat. exact Hu.
  - intros mask. split; [reflexivity |].
    rewrite get_mask_area_um, get_mask_area_px.
    destruct (area_um_close (np_sum (np_where_positive mask))
                (np_sum_range _)) as (r & Hr & Hpos & _ & _ & Herr).
    exists r. split; [exact Hr |]. split; [exact Hpos |].
    assert (Hsq : ((inject_Z PX_SIZE_CLUSTERS / 1000) ^ 2 == 1 # 10000)%Q)
      by reflexivity.
    rewrite Hsq. exact Herr.
  - intros m1 m2 Hle. rewrite !get_mask_area_um.
    rewrite !get_mask_area_px in *.
    pose proof (np_sum_range (np_where_positive m1)) as R1.
    pose proof (np_sum_range (np_where_positive m2)) as R2.
    apply area_um_monotone; lia.
Qed.

Lemma mask_area_counts_cells_and_scales_witness :
  let mask := [[0; 255; 3]; [0; 0; 1]] in
  uint8_array mask /\
  Z.of_nat (length (concat mask)) < 2 ^ 64 /\
  fst (get_mask_area mask) = count_nonzero mask /\
  fle (snd (get_mask_area [[0; 0]])) (snd (get_mask_area mask)).
Proof.
  intros mask.
  assert (Hu : uint8_array mask)
    by (repeat constructor; vm_compute; discriminate).
  assert (Hfit : Z.of_nat (length (concat mask)) < 2 ^ 64) by reflexivity.
  assert (Hle : fst (get_mask_area [[0; 0]]) <= fst (get_mask_area mask))
    by (vm_compute; discriminate).
  split; [exact Hu |]. split; [exact Hfit |]. split.
  - exact (proj1 mask_area_counts_cells_and_scales mask Hu Hfit).
  - exact (proj2 (proj2 mask_area_counts_cells_and_scales) [[0; 0]] mask Hle).
Defined.

(* ===================================================================== *)
(** ** The empty mask                                                     *)
(* ===================================================================== *)

Lemma np_index_In {A} (l : list A) (i : Z) (a : A) :
  np_index l i = Ok a -> In a l.
Proof.
  unfold np_index. destruct (_ && _); [| discriminate].
  destruct (nth_error l _) as [b |] eqn:Hn; [| discriminate].
  intros [= <-]. eapply nth_error_In. exact Hn.
Qed.

Lemma all_zero_cell (m : ndarray2) (x y v : Z) :
  all_zero m -> np_index2 m x y = Ok v -> v = 0.
Proof.
  intros Hz. unfold np_index2.
  destruct (np_index m x) as [row |] eqn:Hrow; [| discriminate].
  cbn [rbind]. intros Hv.
  apply np_index_In in Hrow. apply np_index_In in Hv.
  unfold all_zero in Hz. rewrite List.Forall_forall in Hz.
  specialize (Hz row Hrow). rewrite List.Forall_forall in Hz.
  now apply Hz.
Qed.

Lemma all_zero_count_loop (m : ndarray2) (cl : list ClusterPoint) :
  all_zero m ->
  forall count locs r,
    count_loop m cl count locs = Ok r -> r = (count, locs).
Proof.
  intros Hz. induction cl as [| xy cl IH]; intros count locs r Hrun.
  - now injection Hrun as <-.
  - cbn [count_loop] in Hrun.
    destruct (py_int (np_round (fst xy))) as [x |]; [| discriminate].
    destruct (py_int (np_round (snd xy))) as [y |]; [| discriminate].
    cbn [rbind] in Hrun.
    destruct (np_index2 m x y) as [v |] eqn:Hv; [| discriminate].
    apply (all_zero_cell m x y v Hz) in Hv. subst v.
    cbn in Hrun. now apply IH.
Qed.

Lemma all_zero_sum (m : ndarray2) :
  all_zero m -> np_sum (np_where_positive m) = 0.
Proof.
  intros Hz. unfold np_sum, np_where_positive. rewrite <- concat_map.
  assert (Hc : Forall (fun v => v = 0) (concat m))
    by (apply List.Forall_concat; exact Hz).
  induction Hc as [| v cells -> _ IH]; [reflexivity | exact IH].
Qed.

Lemma count_loop_no_zero_division (m : ndarray2) (cl : list ClusterPoint) :
  forall count locs,
    count_loop m cl count locs <> Raise ZeroDivisionError.
Proof.
  induction cl as [| [a b] cl IH]; intros count locs; [discriminate |].
  cbn [count_loop fst snd].
  destruct a; try discriminate. destruct b; try discriminate.
  cbn [np_round py_int rbind]. unfold np_index2.
  destruct (np_index m _) as [row |] eqn:Hrow.
  - cbn [rbind].
    destruct (np_index row _) as [v |] eqn:Hv.
    + cbn [rbind]. destruct (negb _); apply IH.
    + cbn [rbind]. unfold np_index in Hv.
      destruct (_ && _); [destruct (nth_error _ _) |]; congruence.
  - cbn [rbind]. unfold np_index in Hrow.
    destruct (_ && _); [destruct (nth_error _ _) |]; congruence.
Qed.

Lemma mask_density_unfold (mask : ndarray2) (cl : list ClusterPoint) :
  mask_density mask cl =
  let! res := get_cluster_count mask cl in
  Ok (fst (get_mask_area mask), snd (get_mask_area mask), fst res, snd res,
      fdiv (of_int (fst res)) (snd (get_mask_area mask))).
Proof.
  unfold mask_density.
  destruct (get_mask_area mask) as [px um].
  destruct (get_cluster_count mask cl) as [[count locs] |]; reflexivity.
Qed.

(** C6.  For a mask whose cells are all zero, [area_px] is 0 and
    [area_um] is zero; the density [cluster_count / mask_area_um] is then
    NaN: the division of a Python integer by a NumPy float raises
    nothing.  The only exceptions of the computation are those of the
    membership test, and a row that is written for such a mask carries
    NaN as its density. *)
Theorem empty_mask_density_is_nan :
  forall (mask : ndarray2) (cl : list ClusterPoint),
    all_zero mask ->
    fst (get_mask_area mask) = 0 /\
    feq (snd (get_mask_area mask)) (Finite 0) /\
    mask_density mask cl =
      (let! _ := get_cluster_count mask cl in
       Ok (0, snd (get_mask_area mask), 0, [], NaN)) /\
    mask_density mask cl <> Raise ZeroDivisionError /\
    (forall (pixel : Type) (to_L : pixel -> Z)
            (rotate_resample : image Z -> image Z)
            (n : Z) (name : string) (file : option (image pixel))
            (row : csv_row),
        get_mask pixel to_L rotate_resample file = Ok mask ->
        quantify_mask pixel to_L rotate_resample cl n (name, file) = Ok row ->
        csv_mask_area_px row = 0 /\
        csv_cluster_count row = 0 /\
        csv_cluster_count_per_area row = NaN).
Proof.
  intros mask cl Hz.
  assert (Hpx : fst (get_mask_area mask) = 0)
    by (rewrite get_mask_area_px; now apply all_zero_sum).
  assert (Hum : snd (get_mask_area mask) = Finite 0)
    by (rewrite get_mask_area_um, Hpx; vm_compute; reflexivity).
  assert (Hd : mask_density mask cl =
               (let! _ := get_cluster_count mask cl in
                Ok (0, snd (get_mask_area mask), 0, [], NaN))).
  { rewrite mask_density_unfold.
    destruct (get_cluster_count mask cl) as [res |] eqn:Hrun; [| reflexivity].
    apply (all_zero_count_loop mask cl Hz) in Hrun. subst res.
    cbn [rbind fst snd]. rewrite Hpx, Hum. reflexivity. }
  split; [exact Hpx |].
  split; [rewrite Hum; reflexivity |].
  split; [exact Hd |].
  split.
  - rewrite Hd. pose proof (count_loop_no_zero_division mask cl 0 []) as Hno.
    fold (get_cluster_count mask cl) in Hno.
    destruct (get_cluster_count mask cl); [discriminate |].
    cbn [rbind]. intros [= ->]. now apply Hno.
  - intros pixel to_L rotate_resample n name file row Hmask Hrow.
    unfold quantify_mask in Hrow. cbn [fst snd] in Hrow.
    rewrite Hmask in Hrow. cbn [rbind] in Hrow. rewrite Hd in Hrow.
    destruct (get_cluster_count mask cl); [| discriminate].
    cbn [rbind] in Hrow.
    destruct (visualize_cluster_centers_mask cl [] mask); [| discriminate].
    cbn [rbind] in Hrow.
    apply Ok_inj in Hrow. subst row.
    cbn [csv_mask_area_px csv_cluster_count csv_cluster_count_per_area].
    repeat split.
Qed.

Lemma empty_mask_density_is_nan_witness :
  let mask := [[0; 0]; [0; 0]] in
  let cl := [finite_point (1, 0)%Q] in
  all_zero mask /\
  mask_density mask cl = Ok (0, snd (get_mask_area mask), 0, [], NaN).
Proof.
  intros mask cl.
  assert (Hz : all_zero mask) by (repeat constructor).
  split; [exact Hz |].
  exact (proj1 (proj2 (proj2 (empty_mask_density_is_nan mask cl Hz)))).
Defined.

(* ===================================================================== *)
(** ** Propagation of failures                                            *)
(* ===================================================================== *)

(** C7 does not hold as stated: in a directory that lists an
    undecodable mask before a good one, the good mask is never processed
    and no row is written for it. *)
Lemma bad_mask_stops_its_siblings :
  ~ (forall (pixel : Type) (to_L : pixel -> Z)
            (rotate_resample : image Z -> image Z)
            (dir_path : directory pixel) (h5 : option h5_file)
            (cl : list ClusterPoint)
            (mask_path : string * option (image pixel)) (row : csv_row),
        list_first (hdf5_files dir_path) = Ok h5 ->
        get_xy_locs h5 = Ok cl ->
        In mask_path (mask_files dir_path) ->
        quantify_mask pixel to_L rotate_resample cl
                      (Z.of_nat (length cl)) mask_path = Ok row ->
        In row (snd (run_quantify_clusters pixel to_L rotate_resample
                       dir_path []))).
Proof.
  intros H.
  pose (h5 := Some {| clusters :=
                        Some [{| com_x := Finite 0; com_y := Finite 0 |}] |}).
  pose (good := ("good"%string,
                 Some {| im_width := 1; im_height := 1;
                         im_pixels := [[255]] |})).
  pose (dir := {| hdf5_files := [h5];
                  mask_files := [("bad"%string, None); good] |}).
  pose (cl := [(rescale (Finite 0), rescale (Finite 0))]).
  destruct (quantify_mask Z (fun v => v) (fun img => img) cl 1 good)
    as [row |] eqn:Hrow; [| discriminate Hrow].
  apply (H Z (fun v => v) (fun img => img) dir h5 cl good row).
  - reflexivity.
  - reflexivity.
  - right. now left.
  - exact Hrow.
Qed.

Section Propagation.

Variable pixel : Type.
Variable to_L : pixel -> Z.
Variable rotate_resample : image Z -> image Z.

Lemma mask_loop_stops (cl : list ClusterPoint) (n : Z)
    (pre : list (string * option (image pixel))) :
  forall (rows : list csv_row) bad post written e,
    Forall2 (fun mask_path row =>
               quantify_mask pixel to_L rotate_resample cl n mask_path = Ok row)
            pre rows ->
    quantify_mask pixel to_L rotate_resample cl n bad = Raise e ->
    mask_loop pixel to_L rotate_resample cl n (pre ++ bad :: post) written =
    (Raise e, written ++ rows).
Proof.
  induction pre as [| p pre IH]; intros rows bad post written e Hpre Hbad.
  - inversion Hpre; subst. cbn. rewrite Hbad. now rewrite app_nil_r.
  - inversion Hpre as [| ? row ? rows' Hp Hrest]; subst.
    cbn [app mask_loop]. rewrite Hp.
    rewrite (IH rows' bad post (written ++ [row]) e Hrest Hbad).
    now rewrite <- app_assoc.
Qed.

Lemma main_loop_stops (pre : list (directory pixel)) :
  forall bad post written written_pre written_bad e,
    main_loop pixel to_L rotate_resample pre written = (Ok tt, written_pre) ->
    run_quantify_clusters pixel to_L rotate_resample bad written_pre =
      (Raise e, written_bad) ->
    main_loop pixel to_L rotate_resample (pre ++ bad :: post) written =
      (Raise e, written_bad).
Proof.
  induction pre as [| d pre IH];
    intros bad post written written_pre written_bad e Hpre Hbad.
  - injection Hpre as <-. cbn. now rewrite Hbad.
  - cbn [app main_loop] in *.
    destruct (run_quantify_clusters pixel to_L rotate_resample d written)
      as [[u | e'] w]; [| discriminate Hpre].
    now apply (IH bad post w written_pre).
Qed.

End Propagation.

(** C7, amended.  A failure is not isolated.  When a mask fails, the
    rows of the masks listed before it are written, no later mask of the
    directory is processed, and the exception leaves
    [run_quantify_clusters]; when a directory fails, the loop of [main]
    ends with that exception and no later directory is processed. *)
Theorem first_failure_ends_the_run :
  forall (pixel : Type) (to_L : pixel -> Z)
         (rotate_resample : image Z -> image Z),
    (forall (dir_path : directory pixel) (h5 : option h5_file)
            (cl : list ClusterPoint)
            (pre post : list (string * option (image pixel)))
            (bad : string * option (image pixel))
            (rows written : list csv_row) (e : py_error),
        list_first (hdf5_files dir_path) = Ok h5 ->
        get_xy_locs h5 = Ok cl ->
        mask_files dir_path = pre ++ bad :: post ->
        Forall2 (fun mask_path row =>
                   quantify_mask pixel to_L rotate_resample cl
                     (Z.of_nat (length cl)) mask_path = Ok row)
                pre rows ->
        quantify_mask pixel to_L rotate_resample cl
          (Z.of_nat (length cl)) bad = Raise e ->
        run_quantify_clusters pixel to_L rotate_resample dir_path written =
        (Raise e, written ++ rows)) /\
    (forall (pre post : list (directory pixel)) (bad : directory pixel)
            (written written_pre written_bad : list csv_row) (e : py_error),
        main_loop pixel to_L rotate_resample pre written =
          (Ok tt, written_pre) ->
        run_quantify_clusters pixel to_L rotate_resample bad written_pre =
          (Raise e, written_bad) ->
        main_loop pixel to_L rotate_resample (pre ++ bad :: post) written =
          (Raise e, written_bad)).
Proof.
  intros pixel to_L rotate_resample. split.
  - intros dir_path h5 cl pre post bad rows written e Hh5 Hcl Hm Hpre Hbad.
    unfold run_quantify_clusters. rewrite Hh5, Hcl, Hm. cbn zeta.
    now apply mask_loop_stops.
  - intros pre post bad written written_pre written_bad e Hpre Hbad.
    now apply (main_loop_stops pixel to_L rotate_resample pre
                 bad post written written_pre).
Qed.

Lemma first_failure_ends_the_run_witness :
  let h5 := Some {| clusters :=
                      Some [{| com_x := Finite 0; com_y := Finite 0 |}] |} in
  let good := ("good"%string,
               Some {| im_width := 1; im_height := 1;
                       im_pixels := [[255]] |}) in
  let bad := ("bad"%string, @None (image Z)) in
  let dir := {| hdf5_files := [h5]; mask_files := [bad; good] |} in
  run_quantify_clusters Z (fun v => v) (fun img => img) dir [] =
    (Raise OSError, []) /\
  main Z (fun v => v) (fun img => img) [dir; dir] = (Raise OSError, []).
Proof.
  intros h5 good bad dir.
  pose proof (first_failure_ends_the_run Z (fun v => v) (fun img => img))
    as [Hmask Hdir].
  assert (Hrun : run_quantify_clusters Z (fun v => v) (fun img => img) dir [] =
                 (Raise OSError, [])).
  { apply (Hmask dir h5 [(rescale (Finite 0), rescale (Finite 0))]
             [] [good] bad [] [] OSError);
      first [reflexivity | constructor]. }
  split; [exact Hrun |].
  exact (Hdir [] [dir] dir [] [] [] OSError eq_refl Hrun).
Defined.

(* ===================================================================== *)
(** ** The engine functions do not write to their arguments               *)
(* ===================================================================== *)

Section Store.

Implicit Types (h : heap) (l : loc).

Lemma alloc_fresh (o : object) h :
  h !! fst (alloc o h) = None /\
  snd (alloc o h) = <[fst (alloc o h) := o]> h.
Proof.
  unfold alloc. cbn [fst snd]. split; [| reflexivity].
  apply not_elem_of_dom. apply is_fresh.
Qed.

Lemma insert_preserved h l (o : object) :
  h !! l = None -> preserved h (<[l := o]> h).
Proof.
  intros Hl l' o' Ho'. rewrite lookup_insert_ne; [exact Ho' |].
  intros ->. congruence.
Qed.

Variables (h0 : heap) (mask clusters_xy locs_mask : loc).
Variables (m : ndarray2) (cl : list ClusterPoint).
Hypothesis Hmask : h0 !! mask = Some (ArrayObj m).
Hypothesis Hpoints : h0 !! clusters_xy = Some (PointsObj cl).
Hypothesis Hnew : h0 !! locs_mask = None.

Lemma new_list_apart : locs_mask <> mask /\ locs_mask <> clusters_xy.
Proof. split; intros Heq; rewrite Heq in Hnew; congruence. Qed.

(** The loop over the store does what the loop over the values does,
    and the only object it writes to is the list it was given. *)
Lemma count_loop_h_refines (rest : list ClusterPoint) :
  forall (done : list ClusterPoint) (count : Z) (locs : list (Z * Z)),
    cl = done ++ rest ->
    exists locs_end : list (Z * Z),
      snd (count_loop_h mask clusters_xy locs_mask
             (seq (length done) (length rest)) count
             (<[locs_mask := ListObj locs]> h0)) =
      <[locs_mask := ListObj locs_end]> h0 /\
      match count_loop m rest count locs with
      | Ok (count', locs') =>
          fst (count_loop_h mask clusters_xy locs_mask
                 (seq (length done) (length rest)) count
                 (<[locs_mask := ListObj locs]> h0)) = Ok count' /\
          locs_end = locs'
      | Raise e =>
          fst (count_loop_h mask clusters_xy locs_mask
                 (seq (length done) (length rest)) count
                 (<[locs_mask := ListObj locs]> h0)) = Raise e
      end.
Proof.
  destruct new_list_apart as [Hm Hc].
  induction rest as [| xy rest IH]; intros done count locs Hcl.
  - exists locs. cbn. auto.
  - cbn [length seq count_loop_h count_loop].
    unfold count_body_h, read_row, read_points, read_array.
    rewrite !lookup_insert_ne by assumption.
    rewrite Hpoints, Hmask. cbn [rbind].
    assert (Hrow : nth_error cl (length done) = Some xy).
    { rewrite Hcl, nth_error_app2 by lia. now rewrite Nat.sub_diag. }
    rewrite Hrow. cbn [rbind].
    destruct (py_int (np_round (fst xy))) as [x | e];
      [| exists locs; cbn; auto].
    destruct (py_int (np_round (snd xy))) as [y | e];
      [| exists locs; cbn; auto].
    cbn [rbind].
    destruct (np_index2 m x y) as [v | e]; [| exists locs; cbn; auto].
    cbn [rbind].
    assert (Hnext : cl = (done ++ [xy]) ++ rest)
      by now rewrite <- app_assoc.
    assert (Hlen : length (done ++ [xy]) = S (length done))
      by (rewrite length_app; cbn; lia).
    destruct (negb (v =? 0)).
    + unfold list_append, read_list.
      rewrite lookup_insert_eq. cbn [rbind].
      rewrite insert_insert_eq.
      specialize (IH (done ++ [xy]) (count + 1) (locs ++ [(x, y)]) Hnext).
      rewrite Hlen in IH. exact IH.
    + specialize (IH (done ++ [xy]) count locs Hnext).
      rewrite Hlen in IH. exact IH.
Qed.

End Store.

Lemma get_cluster_count_h_refines (h : heap) (mask clusters_xy : loc)
    (m : ndarray2) (cl : list ClusterPoint) :
  h !! mask = Some (ArrayObj m) ->
  h !! clusters_xy = Some (PointsObj cl) ->
  exists (locs_mask : loc) (locs_end : list (Z * Z)),
    h !! locs_mask = None /\
    snd (get_cluster_count_h mask clusters_xy h) =
      <[locs_mask := ListObj locs_end]> h /\
    match get_cluster_count m cl with
    | Ok (count, locs) =>
        fst (get_cluster_count_h mask clusters_xy h) = Ok (count, locs_mask) /\
        locs_end = locs
    | Raise e => fst (get_cluster_count_h mask clusters_xy h) = Raise e
    end.
Proof.
  intros Hmask Hpoints. unfold get_cluster_count_h.
  destruct (alloc_fresh (ListObj []) h) as [Hnew Hheap].
  destruct (alloc (ListObj []) h) as [locs_mask h1].
  cbn [fst snd] in Hnew, Hheap. subst h1.
  destruct (new_list_apart h mask clusters_xy locs_mask m cl
              Hmask Hpoints Hnew) as [Hm Hc].
  unfold read_points. rewrite lookup_insert_ne by assumption.
  rewrite Hpoints.
  destruct (count_loop_h_refines h mask clusters_xy locs_mask m cl
              Hmask Hpoints Hnew cl [] 0 [] eq_refl)
    as (locs_end & Hend & Hres).
  cbn [length] in Hend, Hres.
  fold (get_cluster_count m cl) in Hres.
  destruct (count_loop_h mask clusters_xy locs_mask (seq 0 (length cl)) 0
              (<[locs_mask := ListObj []]> h)) as [r h'].
  cbn [fst snd] in Hend, Hres. subst h'.
  exists locs_mask, locs_end. split; [exact Hnew |].
  destruct (get_cluster_count m cl) as [[count locs] | e].
  - destruct Hres as [-> ->]. cbn [fst snd]. auto.
  - subst r. cbn [fst snd]. auto.
Qed.

(** C9.  With the mask and the coordinate array held in a store,
    [get_cluster_count] and [get_mask_area] return what they return on
    the values, and leave every object that was in the store before the
    call as it was, the mask and the coordinate array among them: the
    first writes only to the list it creates, the second only creates a
    new array. *)
Theorem engine_leaves_mask_and_points_unchanged :
  forall (h : heap) (mask clusters_xy : loc)
         (m : ndarray2) (cl : list ClusterPoint),
    h !! mask = Some (ArrayObj m) ->
    h !! clusters_xy = Some (PointsObj cl) ->
    (preserved h (snd (get_cluster_count_h mask clusters_xy h)) /\
     snd (get_cluster_count_h mask clusters_xy h) !! mask = Some (ArrayObj m) /\
     snd (get_cluster_count_h mask clusters_xy h) !! clusters_xy =
       Some (PointsObj cl) /\
     match get_cluster_count m cl with
     | Ok (count, locs) =>
         exists locs_mask : loc,
           fst (get_cluster_count_h mask clusters_xy h) = Ok (count, locs_mask) /\
           h !! locs_mask = None /\
           snd (get_cluster_count_h mask clusters_xy h) !! locs_mask =
             Some (ListObj locs)
     | Raise e => fst (get_cluster_count_h mask clusters_xy h) = Raise e
     end) /\
    (preserved h (snd (get_mask_area_h mask h)) /\
     snd (get_mask_area_h mask h) !! mask = Some (ArrayObj m) /\
     snd (get_mask_area_h mask h) !! clusters_xy = Some (PointsObj cl) /\
     fst (get_mask_area_h mask h) = Ok (get_mask_area m)).
Proof.
  intros h mask clusters_xy m cl Hmask Hpoints. split.
  - destruct (get_cluster_count_h_refines h mask clusters_xy m cl
                Hmask Hpoints) as (locs_mask & locs_end & Hnew & Hend & Hres).
    destruct (new_list_apart h mask clusters_xy locs_mask m cl
                Hmask Hpoints Hnew) as [Hm Hc].
    rewrite Hend.
    split; [now apply insert_preserved |].
    split; [now rewrite lookup_insert_ne |].
    split; [now rewrite lookup_insert_ne |].
    destruct (get_cluster_count m cl) as [[count locs] | e]; [| exact Hres].
    destruct Hres as [Hfst ->].
    exists locs_mask. split; [exact Hfst |]. split; [exact Hnew |].
    apply lookup_insert_eq.
  - unfold get_mask_area_h, read_array. rewrite Hmask.
    destruct (alloc_fresh (ArrayObj (np_where_positive m)) h) as [Hnew Hheap].
    destruct (alloc (ArrayObj (np_where_positive m)) h) as [mask' h1].
    cbn [fst snd] in Hnew, Hheap. subst h1.
    rewrite lookup_insert_eq. cbn [fst snd].
    assert (Hm : mask' <> mask) by (intros ->; congruence).
    assert (Hc : mask' <> clusters_xy) by (intros ->; congruence).
    split; [now apply insert_preserved |].
    split; [now rewrite lookup_insert_ne |].
    split; [now rewrite lookup_insert_ne | reflexivity].
Qed.

Lemma engine_leaves_mask_and_points_unchanged_witness :
  let m := [[0; 5]; [7; 0]] in
  let cl := [finite_point (0, 1)%Q; finite_point (1, 1)%Q] in
  let h : heap := <[2%positive := PointsObj cl]> {[1%positive := ArrayObj m]} in
  h !! 1%positive = Some (ArrayObj m) /\
  h !! 2%positive = Some (PointsObj cl) /\
  snd (get_cluster_count_h 1 2 h) !! 1%positive = Some (ArrayObj m) /\
  snd (get_mask_area_h 1 h) !! 1%positive = Some (ArrayObj m).
Proof.
  intros m cl h.
  assert (H1 : h !! 1%positive = Some (ArrayObj m)) by reflexivity.
  assert (H2 : h !! 2%positive = Some (PointsObj cl)) by reflexivity.
  pose proof (engine_leaves_mask_and_points_unchanged h 1%positive 2%positive
                m cl H1 H2) as [(_ & Hc & _) (_ & Ha & _)].
  repeat split; assumption.
Defined.

(* ===================================================================== *)
(** ** Further properties of the membership test                          *)
(* ===================================================================== *)

(** The loop on a concatenation is the loop on the first part, continued
    on the second. *)
Lemma count_loop_app (mask : ndarray2) (a b : list ClusterPoint) :
  forall count locs,
    count_loop mask (a ++ b) count locs =
    let! res := count_loop mask a count locs in
    count_loop mask b (fst res) (snd res).
Proof.
  induction a as [| xy a IH]; intros count locs; [reflexivity |].
  cbn [app count_loop].
  destruct (py_int (np_round (fst xy))) as [x |]; [| reflexivity].
  destruct (py_int (np_round (snd xy))) as [y |]; [| reflexivity].
  cbn [rbind].
  destruct (np_index2 mask x y) as [v |]; [| reflexivity].
  cbn [rbind]. destruct (negb _); apply IH.
Qed.

(** Starting the loop from other accumulators shifts its result. *)
Lemma count_loop_shift (mask : ndarray2) (cl : list ClusterPoint) :
  forall count locs,
    count_loop mask cl count locs =
    let! res := count_loop mask cl 0 [] in
    Ok (count + fst res, locs ++ snd res).
Proof.
  induction cl as [| xy cl IH]; intros count locs.
  - cbn. now rewrite Z.add_0_r, app_nil_r.
  - cbn [count_loop].
    destruct (py_int (np_round (fst xy))) as [x |]; [| reflexivity].
    destruct (py_int (np_round (snd xy))) as [y |]; [| reflexivity].
    cbn [rbind].
    destruct (np_index2 mask x y) as [v |]; [| reflexivity].
    cbn [rbind]. destruct (negb _); [| apply IH].
    rewrite (IH (count + 1) (locs ++ [(x, y)])).
    rewrite (IH (0 + 1) ([] ++ [(x, y)])).
    destruct (count_loop mask cl 0 []) as [[c l] |]; [| reflexivity].
    cbn [rbind fst snd]. rewrite <- app_assoc. f_equal. f_equal. lia.
Qed.

Lemma np_index_error {A} (l : list A) (i : Z) (e : py_error) :
  np_index l i = Raise e -> e = IndexError.
Proof.
  unfold np_index.
  destruct (_ && _); [destruct (nth_error _ _) |]; congruence.
Qed.

Lemma np_index2_error (m : ndarray2) (x y : Z) (e : py_error) :
  np_index2 m x y = Raise e -> e = IndexError.
Proof.
  unfold np_index2. destruct (np_index m x) as [row |] eqn:Hrow; cbn [rbind].
  - apply np_index_error.
  - intros [= <-]. now apply np_index_error in Hrow.
Qed.

Lemma np_index2_ok_wrapped (m : ndarray2) (r c : nat) (x y : Z) :
  has_shape m r c ->
  is_ok (np_index2 m x y) = true ->
  in_wrapped_extent r c (x, y).
Proof.
  intros Hs Hok.
  assert (Hdec : in_wrapped_extent r c (x, y) \/
                 ~ in_wrapped_extent r c (x, y))
    by (unfold in_wrapped_extent; cbn [fst snd]; lia).
  destruct Hdec as [Hin | Hout]; [exact Hin |].
  rewrite (np_index2_raises m r c x y Hs Hout) in Hok. discriminate Hok.
Qed.

Lemma filter_sublist_mono {A} (f g : A -> bool) (l : list A) :
  (forall a, In a l -> f a = true -> g a = true) ->
  sublist (List.filter f l) (List.filter g l).
Proof.
  induction l as [| a l IH]; intros Himp; cbn; [constructor |].
  assert (IH' : sublist (List.filter f l) (List.filter g l))
    by (apply IH; intros b Hb; apply Himp; now right).
  destruct (f a) eqn:Hf.
  - rewrite (Himp a (or_introl eq_refl) Hf). now constructor.
  - destruct (g a); [now constructor | exact IH'].
Qed.



(** X2.  Counting a concatenation of two point lists is counting each
    and adding up: the counts add, the lists of inside points are joined
    in order, and an exception of the first part, or else of the second,
    is the exception of the whole. *)
Theorem count_of_concatenation :
  forall (mask : ndarray2) (a b : list ClusterPoint),
    get_cluster_count mask (a ++ b) =
    let! ra := get_cluster_count mask a in
    let! rb := get_cluster_count mask b in
    Ok (fst ra + fst rb, snd ra ++ snd rb).
Proof.
  intros mask a b. unfold get_cluster_count.
  rewrite count_loop_app.
  destruct (count_loop mask a 0 []) as [[ca la] |]; [| reflexivity].
  cbn [rbind fst snd]. apply count_loop_shift.
Qed.

(** X3.  [get_cluster_count] raises nothing but [IndexError],
    [ValueError] and [OverflowError]. *)
Theorem count_raises_three_kinds_only :
  forall (mask : ndarray2) (cl : list ClusterPoint) (e : py_error),
    get_cluster_count mask cl = Raise e ->
    e = IndexError \/ e = ValueError \/ e = OverflowError.
Proof.
  intros mask cl e. unfold get_cluster_count.
  generalize 0 at 1. generalize (@nil (Z * Z)).
  induction cl as [| [a b] cl IH]; intros locs count Hrun; [discriminate |].
  cbn [count_loop fst snd] in Hrun.
  destruct a as [qa | | |]; cbn [np_round py_int rbind] in Hrun;
    try (injection Hrun as <-; auto).
  destruct b as [qb | | |]; cbn [np_round py_int rbind] in Hrun;
    try (injection Hrun as <-; auto).
  destruct (np_index2 mask _ _) as [v |] eqn:Hv; cbn [rbind] in Hrun.
  - destruct (negb _); eapply IH; exact Hrun.
  - injection Hrun as <-. left. eapply np_index2_error. exact Hv.
Qed.

Lemma count_raises_three_kinds_only_witness :
  get_cluster_count [[1]] [(Finite 3, Finite 0)] = Raise IndexError /\
  (IndexError = IndexError \/ IndexError = ValueError \/
   IndexError = OverflowError).
Proof.
  assert (Hrun : get_cluster_count [[1]] [(Finite 3, Finite 0)] =
                 Raise IndexError) by reflexivity.
  split; [exact Hrun |].
  exact (count_raises_three_kinds_only [[1]] [(Finite 3, Finite 0)]
           IndexError Hrun).
Defined.

(** X4.  The index [int(np.round(v))] of a coordinate: a whole number is
    its own index; a coordinate exactly half way between two pixels goes
    to the even one; and a larger coordinate never gets a smaller
    index. *)
Theorem index_of_coordinate :
  (forall z : Z, py_int (np_round (Finite (inject_Z z))) = Ok z) /\
  (forall z : Z,
      py_int (np_round (Finite (inject_Z z + (1 # 2)))) =
      Ok (if Z.even z then z else z + 1)) /\
  (forall p q : Q,
      (p <= q)%Q -> round_half_even p <= round_half_even q).
Proof.
  split; [| split].
  - intros z. rewrite py_int_np_round. f_equal.
    unfold round_half_even. rewrite Qfloor_Z.
    destruct (inject_Z z - inject_Z z ?= 1 # 2)%Q eqn:Hc; [| reflexivity |].
    + apply Qeq_alt in Hc. exfalso. lra.
    + apply Qgt_alt in Hc. exfalso. lra.
  - intros z. rewrite py_int_np_round. f_equal.
    unfold round_half_even.
    assert (Hf : Qfloor (inject_Z z + (1 # 2)) = z).
    { apply Qfloor_unique. rewrite inject_Z_plus.
      change (inject_Z 1) with 1%Q. split; lra. }
    rewrite Hf.
    destruct (inject_Z z + (1 # 2) - inject_Z z ?= 1 # 2)%Q eqn:Hc;
      [reflexivity | |].
    + apply Qlt_alt in Hc. exfalso. lra.
    + apply Qgt_alt in Hc. exfalso. lra.
  - intros p q Hpq.
    destruct (Z_le_gt_dec (round_half_even p) (round_half_even q))
      as [Hle | Hgt]; [exact Hle | exfalso].
    pose proof (round_half_even_nearest p) as Hp.
    pose proof (round_half_even_nearest q) as Hq.
    apply Qabs_Qle_condition in Hp. apply Qabs_Qle_condition in Hq.
    assert (Hz : (inject_Z (round_half_even q) + 1 <=
                  inject_Z (round_half_even p))%Q).
    { change 1%Q with (inject_Z 1). rewrite <- inject_Z_plus.
      rewrite <- Zle_Qle. lia. }
    assert (Heq : (p == q)%Q) by lra.
    apply round_half_even_comp in Heq. lia.
Qed.

Lemma index_of_coordinate_witness :
  (1 # 1 <= 5 # 2)%Q /\
  round_half_even (1 # 1) <= round_half_even (5 # 2).
Proof.
  assert (Hle : (1 # 1 <= 5 # 2)%Q) by (vm_compute; discriminate).
  split; [exact Hle |].
  exact (proj2 (proj2 index_of_coordinate) (1 # 1)%Q (5 # 2)%Q Hle).
Defined.

(** X5.  Enlarging the mask never loses a cluster: for two masks of one
    shape, the second non-zero wherever the first is, a call that
    returns on the first returns on the second, with a count at least
    as large and a list of inside points that contains the first as a
    subsequence. *)
Theorem larger_mask_counts_more :
  forall (m1 m2 : ndarray2) (r c : nat) (cl : list ClusterPoint)
         (count1 : Z) (locs1 : list (Z * Z)),
    has_shape m1 r c ->
    has_shape m2 r c ->
    covers m1 m2 ->
    get_cluster_count m1 cl = Ok (count1, locs1) ->
    exists (count2 : Z) (locs2 : list (Z * Z)),
      get_cluster_count m2 cl = Ok (count2, locs2) /\
      count1 <= count2 /\
      sublist locs1 locs2.
Proof.
  intros m1 m2 r c cl count1 locs1 Hs1 Hs2 Hcov Hrun.
  unfold get_cluster_count in *.
  pose proof Hrun as Hret.
  apply count_loop_returns in Hret as (pts & -> & Hok & _ & _).
  assert (Hin : Forall (fun p => in_wrapped_extent r c (rounded p)) pts).
  { eapply List.Forall_impl; [| exact Hok]. intros p Hp.
    pose proof (np_index2_ok_wrapped m1 r c _ _ Hs1 Hp) as Hw.
    exact Hw. }
  rewrite (count_loop_wrapped m1 r c Hs1 pts Hin) in Hrun.
  cbn zeta in Hrun. injection Hrun as <- <-.
  rewrite (count_loop_wrapped m2 r c Hs2 pts Hin).
  eexists. eexists. split; [reflexivity |]. cbn [app].
  assert (Hsub : sublist (List.filter (hit m1 r c) (map rounded pts))
                         (List.filter (hit m2 r c) (map rounded pts))).
  { apply filter_sublist_mono. intros ij _. unfold hit.
    rewrite !negb_true_iff, !Z.eqb_neq. apply Hcov. }
  split.
  - apply sublist_length in Hsub. lia.
  - exact Hsub.
Qed.

Lemma larger_mask_counts_more_witness :
  let m1 := [[0; 5]; [0; 0]] in
  let m2 := [[1; 5]; [0; 0]] in
  let cl := map finite_point [(0, 0); (0, 1)]%Q in
  has_shape m1 2 2 /\ has_shape m2 2 2 /\ covers m1 m2 /\
  get_cluster_count m1 cl = Ok (1, [(0, 1)]) /\
  exists (count2 : Z) (locs2 : list (Z * Z)),
    get_cluster_count m2 cl = Ok (count2, locs2) /\
    1 <= count2 /\ sublist [(0, 1)] locs2.
Proof.
  intros m1 m2 cl.
  assert (Hs1 : has_shape m1 2 2)
    by (split; [reflexivity | repeat constructor]).
  assert (Hs2 : has_shape m2 2 2)
    by (split; [reflexivity | repeat constructor]).
  assert (Hcov : covers m1 m2).
  { intros i j.
    destruct i as [| [| [| i]]]; destruct j as [| [| [| j]]]; cbn; congruence. }
  assert (Hrun : get_cluster_count m1 cl = Ok (1, [(0, 1)])) by reflexivity.
  repeat (split; [assumption |]).
  exact (larger_mask_counts_more m1 m2 2%nat 2%nat cl 1 [(0, 1)]
           Hs1 Hs2 Hcov Hrun).
Defined.

Lemma np_index_map {A B} (f : A -> B) (l : list A) (i : Z) :
  np_index (map f l) i =
  let! a := np_index l i in Ok (f a).
Proof.
  unfold np_index. rewrite length_map.
  destruct (_ && _); [| reflexivity].
  rewrite nth_error_map.
  destruct (nth_error l _); reflexivity.
Qed.

Lemma np_index2_binarised (m : ndarray2) (x y : Z) :
  np_index2 (np_where_positive m) x y =
  let! v := np_index2 m x y in Ok (if 0 <? v then 1 else v).
Proof.
  unfold np_index2, np_where_positive. rewrite np_index_map.
  destruct (np_index m x) as [row |]; [| reflexivity].
  cbn [rbind]. apply np_index_map.
Qed.

Lemma np_where_positive_idempotent (m : ndarray2) :
  np_where_positive (np_where_positive m) = np_where_positive m.
Proof.
  unfold np_where_positive. rewrite List.map_map.
  apply List.map_ext. intros row. rewrite List.map_map.
  apply List.map_ext. intros v.
  destruct (Z.ltb_spec 0 v) as [Hv | Hv]; [reflexivity |].
  destruct (Z.ltb_spec 0 v); [lia | reflexivity].
Qed.

(** X6.  Only the support of the mask matters: replacing every positive
    cell by 1 beforehand changes neither the area nor the result of the
    count. *)
Theorem binarised_mask_same_area_and_count :
  forall (m : ndarray2) (cl : list ClusterPoint),
    get_mask_area (np_where_positive m) = get_mask_area m /\
    get_cluster_count (np_where_positive m) cl = get_cluster_count m cl.
Proof.
  intros m cl. split.
  - unfold get_mask_area. now rewrite np_where_positive_idempotent.
  - unfold get_cluster_count. generalize 0. generalize (@nil (Z * Z)).
    induction cl as [| xy cl IH]; intros locs count; [reflexivity |].
    cbn [count_loop].
    destruct (py_int (np_round (fst xy))) as [x |]; [| reflexivity].
    destruct (py_int (np_round (snd xy))) as [y |]; [| reflexivity].
    cbn [rbind]. rewrite np_index2_binarised.
    destruct (np_index2 m x y) as [v |]; [| reflexivity].
    cbn [rbind].
    assert (Hv : ((if 0 <? v then 1 else v) =? 0) = (v =? 0)).
    { destruct (Z.ltb_spec 0 v); [| reflexivity].
      destruct (Z.eqb_spec v 0); [lia | reflexivity]. }
    rewrite Hv. destruct (negb _); apply IH.
Qed.

Lemma concat_length_shape (m : ndarray2) (c : nat) :
  Forall (fun row => length row = c) m ->
  length (concat m) = (length m * c)%nat.
Proof.
  induction 1 as [| row m Hrow _ IH]; [reflexivity |].
  cbn [concat length]. rewrite length_app, IH, Hrow. lia.
Qed.

Lemma filter_all {A} (f : A -> bool) (l : list A) :
  Forall (fun a => f a = true) l -> List.filter f l = l.
Proof.
  induction 1 as [| a l Ha _ IH]; [reflexivity |].
  cbn. now rewrite Ha, IH.
Qed.

(** X7.  For an 8-bit mask of [r] rows and [c] columns (with [r * c]
    below 2^64), [area_px] lies between 0 and [r * c]; when no cell is
    zero it is [r * c], and [area_um] is then the double product of
    [r * c] and the squared pixel size in micrometres: a finite number
    within [2^-50], relatively, of [r * c] ten-thousandths of a square
    micrometre, the pixel being 10 nm wide. *)
Theorem area_between_zero_and_grid_size :
  forall (m : ndarray2) (r c : nat),
    has_shape m r c ->
    uint8_array m ->
    Z.of_nat (r * c) < 2 ^ 64 ->
    0 <= fst (get_mask_area m) <= Z.of_nat (r * c) /\
    (all_nonzero m ->
     fst (get_mask_area m) = Z.of_nat (r * c) /\
     snd (get_mask_area m) =
       fmul (of_int (Z.of_nat (r * c)))
            (fsquare (fdiv (of_int PX_SIZE_CLUSTERS) (of_int 1000))) /\
     exists q : Q,
       snd (get_mask_area m) = Finite q /\
       (Qabs (q - inject_Z (Z.of_nat (r * c)) * (1 # 10000)) <=
        pow2 (-50) * (inject_Z (Z.of_nat (r * c)) * (1 # 10000)))%Q).
Proof.
  intros m r c [Hr Hc] Hu Hfit.
  assert (Hlen : length (concat m) = (r * c)%nat)
    by (rewrite (concat_length_shape m c Hc); now rewrite Hr).
  assert (Hpx : fst (get_mask_area m) =
                Z.of_nat (length (List.filter (fun v => negb (v =? 0))
                                              (concat m)))).
  { rewrite get_mask_area_px. unfold np_sum, np_where_positive.
    rewrite <- concat_map.
    rewrite sum_binarised; [lia | | lia | lia].
    apply List.Forall_concat. exact Hu. }
  split.
  - rewrite Hpx.
    pose proof (List.filter_length_le (fun v => negb (v =? 0)) (concat m)).
    lia.
  - intros Hnz.
    assert (Hfull : fst (get_mask_area m) = Z.of_nat (r * c)).
    { rewrite Hpx, filter_all; [now rewrite Hlen |].
      assert (Hall : Forall (fun v => v <> 0) (concat m))
        by (apply List.Forall_concat; exact Hnz).
      eapply List.Forall_impl; [| exact Hall].
      intros v Hv. cbn beta. now rewrite negb_true_iff, Z.eqb_neq. }
    split; [exact Hfull |].
    rewrite pixel_area_um, get_mask_area_um, Hfull.
    split; [reflexivity |].
    destruct (area_um_close (Z.of_nat (r * c)) ltac:(lia))
      as (q & Hq & _ & _ & _ & Herr).
    exists q. split; [exact Hq | exact Herr].
Qed.

Lemma area_between_zero_and_grid_size_witness :
  let m := [[1; 1; 1; 1]; [1; 1; 1; 1]; [1; 1; 1; 1]; [1; 1; 1; 1]] in
  has_shape m 4 4 /\ uint8_array m /\ all_nonzero m /\
  fst (get_mask_area m) = 16 /\
  exists q : Q,
    snd (get_mask_area m) = Finite q /\
    (Qabs (q - 16 * (1 # 10000)) <= pow2 (-50) * (16 * (1 # 10000)))%Q.
Proof.
  intros m.
  assert (Hs : has_shape m 4 4)
    by (split; [reflexivity | repeat constructor]).
  assert (Hu : uint8_array m)
    by (repeat constructor; vm_compute; discriminate).
  assert (Hnz : all_nonzero m) by (repeat constructor; discriminate).
  assert (Hfit : Z.of_nat (4 * 4) < 2 ^ 64) by reflexivity.
  repeat (split; [assumption |]).
  pose proof (proj2 (area_between_zero_and_grid_size m 4%nat 4%nat Hs Hu Hfit)
                Hnz) as (Hpx & _ & Hum).
  split; [exact Hpx | exact Hum].
Defined.

(* ===================================================================== *)
(** ** Further properties of the mask reader                              *)
(* ===================================================================== *)

(** Two arrays of one shape with the same cells are the same array. *)
Lemma grid_ext (a b : ndarray2) (r c : nat) :
  has_shape a r c -> has_shape b r c ->
  (forall i j, (i < r)%nat -> (j < c)%nat -> cell a i j = cell b i j) ->
  a = b.
Proof.
  intros Ha Hb Hcell.
  pose proof Ha as [Har _]. pose proof Hb as [Hbr _].
  apply (nth_ext a b [] []); [congruence |].
  intros i Hi. rewrite Har in Hi.
  apply (nth_ext _ _ 0 0).
  - rewrite (shape_row a r c i Ha Hi), (shape_row b r c i Hb Hi). reflexivity.
  - intros j Hj. rewrite (shape_row a r c i Ha Hi) in Hj.
    now apply Hcell.
Qed.

Lemma well_formed_shape {P} (img : image P) :
  well_formed img ->
  forall f : P -> Z,
    has_shape (map (map f) (im_pixels img)) (im_height img) (im_width img).
Proof.
  intros [Hh Hw] f. split.
  - now rewrite length_map.
  - apply List.Forall_forall. intros row Hrow.
    apply List.in_map_iff in Hrow as (row' & <- & Hin).
    rewrite length_map.
    rewrite List.Forall_forall in Hw. now apply Hw.
Qed.

Section SquareMask.

Variable pixel : Type.
Variable to_L : pixel -> Z.
Variable rotate_resample : image Z -> image Z.

(** The mask of a square image, written out: row [i], column [j] holds
    the luminance of the pixel in row [j], column [i]. *)
Lemma square_mask_transposed (opened : image pixel) (n : nat) :
  im_width opened = n -> im_height opened = n ->
  get_mask pixel to_L rotate_resample (Some opened) =
  Ok (grid_init n n
        (fun i j => pixel_at (transpose_FLIP_LEFT_RIGHT
                                (convert_L pixel to_L opened))
                             j (n - 1 - i))).
Proof.
  intros Hw Hh. unfold get_mask, np_array, rotate_90.
  cbn [transpose_FLIP_LEFT_RIGHT convert_L im_width im_height].
  rewrite Hw, Hh, Nat.eqb_refl.
  unfold transpose_ROTATE_90 at 1.
  cbn [im_pixels].
  change (im_width (transpose_FLIP_LEFT_RIGHT (convert_L pixel to_L opened)))
    with (im_width opened).
  change (im_height (transpose_FLIP_LEFT_RIGHT (convert_L pixel to_L opened)))
    with (im_height opened).
  rewrite Hw, Hh. reflexivity.
Qed.

Lemma square_mask_cell (opened : image pixel) (n i j : nat) :
  im_width opened = n -> im_height opened = n ->
  (i < n)%nat -> (j < n)%nat ->
  cell (grid_init n n
          (fun i j => pixel_at (transpose_FLIP_LEFT_RIGHT
                                  (convert_L pixel to_L opened))
                               j (n - 1 - i))) i j =
  cell (map (map to_L) (im_pixels opened)) j i.
Proof.
  intros Hw Hh Hi Hj. rewrite cell_grid_init by assumption.
  unfold pixel_at at 1.
  cbn [transpose_FLIP_LEFT_RIGHT convert_L im_width im_height im_pixels].
  rewrite Hw, Hh. rewrite cell_grid_init by lia.
  unfold pixel_at. cbn [im_pixels]. f_equal. lia.
Qed.

End SquareMask.

(** X8.  Aligning twice undoes the alignment: for a well-formed square
    image, reading the mask of the mask gives back the luminance image
    itself. *)
Theorem mask_of_mask_is_the_image :
  forall (pixel : Type) (to_L : pixel -> Z)
         (rotate_resample : image Z -> image Z)
         (opened : image pixel) (n : nat) (mask : ndarray2),
    well_formed opened ->
    im_width opened = n -> im_height opened = n ->
    get_mask pixel to_L rotate_resample (Some opened) = Ok mask ->
    get_mask Z (fun v => v) rotate_resample (Some (square_image n mask)) =
    Ok (map (map to_L) (im_pixels opened)).
Proof.
  intros pixel to_L rr opened n mask Hwf Hw Hh Hmask.
  rewrite (square_mask_transposed pixel to_L rr opened n Hw Hh) in Hmask.
  injection Hmask as Hmask.
  rewrite (square_mask_transposed Z (fun v => v) rr (square_image n mask) n
             eq_refl eq_refl).
  f_equal.
  pose proof (well_formed_shape opened Hwf to_L) as Hs.
  rewrite Hw, Hh in Hs.
  apply (grid_ext _ _ n n); [apply grid_init_shape | exact Hs |].
  intros i j Hi Hj.
  rewrite (square_mask_cell Z (fun v => v) (square_image n mask) n i j
             eq_refl eq_refl Hi Hj).
  cbn [square_image im_pixels].
  assert (Hid : forall g : ndarray2, map (map (fun v : Z => v)) g = g).
  { intros g. rewrite <- (List.map_id g) at 2. apply List.map_ext.
    intros row. apply List.map_id. }
  rewrite Hid, <- Hmask.
  now rewrite (square_mask_cell pixel to_L opened n j i Hw Hh Hj Hi).
Qed.

Lemma mask_of_mask_is_the_image_witness :
  let opened := square_image 2 [[1; 2]; [3; 4]] in
  well_formed opened /\
  get_mask Z (fun v => v * 10) (fun img => img) (Some opened) =
    Ok [[10; 30]; [20; 40]] /\
  get_mask Z (fun v => v) (fun img => img)
           (Some (square_image 2 [[10; 30]; [20; 40]])) =
    Ok [[10; 20]; [30; 40]].
Proof.
  intros opened.
  assert (Hwf : well_formed opened)
    by (split; [reflexivity | repeat constructor]).
  assert (Hmask : get_mask Z (fun v => v * 10) (fun img => img) (Some opened) =
                  Ok [[10; 30]; [20; 40]]) by reflexivity.
  split; [exact Hwf |]. split; [exact Hmask |].
  exact (mask_of_mask_is_the_image Z (fun v => v * 10) (fun img => img)
           opened 2%nat [[10; 30]; [20; 40]] Hwf eq_refl eq_refl Hmask).
Defined.

(** X10.  What the alignment is for: with the mask of a well-formed
    square image, a cluster centre [(x, y)] whose rounded coordinates
    lie inside the grid is counted exactly when the luminance of the
    image pixel in column [round x] of row [round y] is non-zero; x runs
    along the rows of the image and y down its columns. *)
Theorem cluster_is_tested_against_image_column_x_row_y :
  forall (pixel : Type) (to_L : pixel -> Z)
         (rotate_resample : image Z -> image Z)
         (opened : image pixel) (n : nat) (pts : list (Q * Q)),
    im_width opened = n -> im_height opened = n ->
    Forall (fun p => in_extent n n (rounded p)) pts ->
    exists mask : ndarray2,
      get_mask pixel to_L rotate_resample (Some opened) = Ok mask /\
      get_cluster_count mask (map finite_point pts) =
      let ins :=
        List.filter
          (fun xy => negb (pixel_at (convert_L pixel to_L opened)
                                    (Z.to_nat (snd xy)) (Z.to_nat (fst xy))
                           =? 0))
          (map rounded pts) in
      Ok (Z.of_nat (length ins), ins).
Proof.
  intros pixel to_L rr opened n pts Hw Hh Hin.
  eexists. split; [apply (square_mask_transposed pixel to_L rr opened n Hw Hh) |].
  set (mask := grid_init n n _).
  assert (Hs : has_shape mask n n) by apply grid_init_shape.
  unfold get_cluster_count.
  rewrite (count_loop_wrapped mask n n Hs).
  - cbn zeta. rewrite Z.add_0_l, app_nil_l.
    assert (Hf : List.filter (hit mask n n) (map rounded pts) =
                 List.filter
                   (fun xy => negb (pixel_at (convert_L pixel to_L opened)
                                             (Z.to_nat (snd xy))
                                             (Z.to_nat (fst xy)) =? 0))
                   (map rounded pts)).
    { apply List.filter_ext_in. intros ij Hij.
      apply List.in_map_iff in Hij as (p & <- & Hp).
      rewrite List.Forall_forall in Hin. specialize (Hin p Hp).
      rewrite (hit_in_extent mask n n _ Hin).
      destruct Hin as [Hx Hy]. unfold mask.
      rewrite (square_mask_cell pixel to_L opened n) by (assumption || lia).
      reflexivity. }
    now rewrite Hf.
  - eapply List.Forall_impl; [| exact Hin].
    intros p. apply in_extent_wrapped.
Qed.

Lemma cluster_is_tested_against_image_column_x_row_y_witness :
  let opened := square_image 2 [[0; 9]; [0; 0]] in
  let pts := [(1, 0); (0, 1)]%Q in
  Forall (fun p => in_extent 2 2 (rounded p)) pts /\
  exists mask : ndarray2,
    get_mask Z (fun v => v) (fun img => img) (Some opened) = Ok mask /\
    get_cluster_count mask (map finite_point pts) = Ok (1, [(1, 0)]).
Proof.
  intros opened pts.
  assert (Hin : Forall (fun p => in_extent 2 2 (rounded p)) pts)
    by (repeat constructor; vm_compute; intuition discriminate).
  split; [exact Hin |].
  exact (cluster_is_tested_against_image_column_x_row_y Z (fun v => v)
           (fun img => img) opened 2%nat pts eq_refl eq_refl Hin).
Defined.

Lemma sum_over_ext (g g' : nat -> nat) (idx : list nat) :
  (forall i, In i idx -> g i = g' i) -> sum_over g idx = sum_over g' idx.
Proof.
  intros Hext. unfold sum_over. f_equal. now apply List.map_ext_in.
Qed.

Lemma sum_over_add (a b : nat -> nat) (idx : list nat) :
  sum_over (fun i => (a i + b i)%nat) idx =
  (sum_over a idx + sum_over b idx)%nat.
Proof.
  unfold sum_over, list_sum.
  induction idx as [| i idx IH]; cbn [map fold_right]; [reflexivity | lia].
Qed.

Lemma sum_over_exchange (g : nat -> nat -> nat) (ys xs : list nat) :
  sum_over (fun y => sum_over (fun x => g y x) xs) ys =
  sum_over (fun x => sum_over (fun y => g y x) ys) xs.
Proof.
  induction ys as [| y ys IH].
  - unfold sum_over, list_sum. cbn [map fold_right].
    induction xs as [| x xs IHx]; cbn [map fold_right]; [reflexivity |].
    now rewrite <- IHx.
  - change (sum_over (fun y => sum_over (fun x => g y x) xs) (y :: ys))
      with (sum_over (fun x => g y x) xs +
            sum_over (fun y => sum_over (fun x => g y x) xs) ys)%nat.
    rewrite IH, <- sum_over_add. apply sum_over_ext. reflexivity.
Qed.

Lemma count_row (f : nat -> Z) (xs : list nat) :
  length (List.filter (fun v => negb (v =? 0)) (map f xs)) =
  sum_over (fun x => indicator (f x)) xs.
Proof.
  unfold sum_over, indicator.
  induction xs as [| x xs IH]; cbn; [reflexivity |].
  destruct (f x =? 0); cbn; now rewrite IH.
Qed.

Lemma count_grid_init (h w : nat) (f : nat -> nat -> Z) :
  count_nonzero (grid_init h w f) =
  Z.of_nat (sum_over (fun y => sum_over (fun x => indicator (f y x)) (seq 0 w))
                     (seq 0 h)).
Proof.
  unfold count_nonzero, grid_init. f_equal.
  generalize (seq 0 h) as ys. intros ys.
  induction ys as [| y ys IH]; [reflexivity |].
  cbn [map concat]. rewrite List.filter_app, length_app, IH, count_row.
  reflexivity.
Qed.

Lemma grid_is_grid_init (m : ndarray2) (r c : nat) :
  has_shape m r c -> m = grid_init r c (cell m).
Proof.
  intros Hs. apply (grid_ext _ _ r c Hs (grid_init_shape r c (cell m))).
  intros i j Hi Hj. now rewrite cell_grid_init.
Qed.

Lemma cell_is_uint8 (m : ndarray2) (r c i j : nat) :
  has_shape m r c -> uint8_array m ->
  (i < r)%nat -> (j < c)%nat -> is_uint8 (cell m i j).
Proof.
  intros Hs Hu Hi Hj. pose proof Hs as [Hr _].
  unfold uint8_array in Hu. rewrite List.Forall_forall in Hu.
  assert (Hrow : In (nth i m []) m) by (apply nth_In; lia).
  specialize (Hu _ Hrow). rewrite List.Forall_forall in Hu.
  apply Hu. apply nth_In.
  now rewrite (shape_row m r c i Hs Hi).
Qed.

Lemma grid_init_uint8 (h w : nat) (f : nat -> nat -> Z) :
  (forall y x, (y < h)%nat -> (x < w)%nat -> is_uint8 (f y x)) ->
  uint8_array (grid_init h w f).
Proof.
  intros Hf. unfold uint8_array, grid_init.
  apply List.Forall_forall. intros row Hrow.
  apply List.in_map_iff in Hrow as (y & <- & Hy).
  apply List.in_seq in Hy.
  apply List.Forall_forall. intros v Hv.
  apply List.in_map_iff in Hv as (x & <- & Hx).
  apply List.in_seq in Hx. apply Hf; lia.
Qed.

Lemma area_from_count (m : ndarray2) (r c : nat) :
  has_shape m r c -> uint8_array m -> Z.of_nat (r * c) < 2 ^ 64 ->
  np_sum (np_where_positive m) = count_nonzero m.
Proof.
  intros [Hr Hc] Hu Hfit.
  assert (Hlen : length (concat m) = (r * c)%nat)
    by (rewrite (concat_length_shape m c Hc); now rewrite Hr).
  unfold np_sum, np_where_positive, count_nonzero.
  rewrite <- concat_map.
  rewrite sum_binarised; [lia | | lia | lia].
  apply List.Forall_concat. exact Hu.
Qed.

(** X9.  The alignment moves cells without changing them: the mask of a
    well-formed square image has as many non-zero cells as the luminance
    image, and, for 8-bit luminances (the cell count below 2^64),
    [get_mask_area] gives the same two areas for both. *)
Theorem alignment_keeps_the_area :
  forall (pixel : Type) (to_L : pixel -> Z)
         (rotate_resample : image Z -> image Z)
         (opened : image pixel) (n : nat) (mask : ndarray2),
    well_formed opened ->
    im_width opened = n -> im_height opened = n ->
    get_mask pixel to_L rotate_resample (Some opened) = Ok mask ->
    count_nonzero mask = count_nonzero (map (map to_L) (im_pixels opened)) /\
    (uint8_array (map (map to_L) (im_pixels opened)) ->
     Z.of_nat (n * n) < 2 ^ 64 ->
     get_mask_area mask = get_mask_area (map (map to_L) (im_pixels opened))).
Proof.
  intros pixel to_L rr opened n mask Hwf Hw Hh Hmask.
  set (gray := map (map to_L) (im_pixels opened)).
  assert (Hs : has_shape gray n n).
  { pose proof (well_formed_shape opened Hwf to_L) as Hs.
    now rewrite Hw, Hh in Hs. }
  rewrite (square_mask_transposed pixel to_L rr opened n Hw Hh) in Hmask.
  injection Hmask as Hmask.
  assert (Hm : mask = grid_init n n (fun i j => cell gray j i)).
  { apply (grid_ext _ _ n n).
    - rewrite <- Hmask. apply grid_init_shape.
    - apply grid_init_shape.
    - intros i j Hi Hj. rewrite <- Hmask.
      rewrite (square_mask_cell pixel to_L opened n i j Hw Hh Hi Hj).
      now rewrite cell_grid_init. }
  assert (Hcount : count_nonzero mask = count_nonzero gray).
  { rewrite Hm.
    transitivity (count_nonzero (grid_init n n (cell gray)));
      [| now rewrite <- (grid_is_grid_init gray n n Hs)].
    rewrite !count_grid_init. f_equal.
    apply (sum_over_exchange (fun i j => indicator (cell gray j i))). }
  split; [exact Hcount |].
  intros Hu Hfit.
  assert (Hum : uint8_array mask).
  { rewrite Hm. apply grid_init_uint8. intros y x Hy Hx.
    now apply (cell_is_uint8 gray n n). }
  assert (Hsm : has_shape mask n n)
    by (rewrite Hm; apply grid_init_shape).
  unfold get_mask_area.
  rewrite (area_from_count mask n n Hsm Hum Hfit).
  rewrite (area_from_count gray n n Hs Hu Hfit).
  now rewrite Hcount.
Qed.

Lemma alignment_keeps_the_area_witness :
  let opened := square_image 2 [[0; 9]; [0; 200]] in
  well_formed opened /\
  get_mask Z (fun v => v) (fun img => img) (Some opened) =
    Ok [[0; 0]; [9; 200]] /\
  count_nonzero [[0; 0]; [9; 200]] =
  count_nonzero (map (map (fun v => v)) (im_pixels opened)).
Proof.
  intros opened.
  assert (Hwf : well_formed opened)
    by (split; [reflexivity | repeat constructor]).
  assert (Hmask : get_mask Z (fun v => v) (fun img => img) (Some opened) =
                  Ok [[0; 0]; [9; 200]]) by reflexivity.
  split; [exact Hwf |]. split; [exact Hmask |].
  exact (proj1 (alignment_keeps_the_area Z (fun v => v) (fun img => img)
                  opened 2%nat [[0; 0]; [9; 200]] Hwf eq_refl eq_refl Hmask)).
Defined.

(* ===================================================================== *)
(** ** Further properties of the pipeline                                 *)
(* ===================================================================== *)

Section PipelineFacts.

Variable pixel : Type.
Variable to_L : pixel -> Z.
Variable rotate_resample : image Z -> image Z.

(** The loop over the masks writes the rows of the masks up to the first
    failure, and ends well exactly when there was none; otherwise it
    ends with the exception of the first mask that got no row. *)
Lemma mask_loop_rows (cl : list ClusterPoint) (n : Z)
    (masks_paths : list (string * option (image pixel))) :
  forall written : list csv_row,
  exists rows : list csv_row,
    snd (mask_loop pixel to_L rotate_resample cl n masks_paths written) =
      written ++ rows /\
    Forall2 (fun mask_path row =>
               quantify_mask pixel to_L rotate_resample cl n mask_path = Ok row)
            (firstn (length rows) masks_paths) rows /\
    (fst (mask_loop pixel to_L rotate_resample cl n masks_paths written) = Ok tt
     <-> length rows = length masks_paths) /\
    (forall mask_path,
        nth_error masks_paths (length rows) = Some mask_path ->
        exists e : py_error,
          quantify_mask pixel to_L rotate_resample cl n mask_path = Raise e /\
          fst (mask_loop pixel to_L rotate_resample cl n masks_paths written) =
            Raise e).
Proof.
  induction masks_paths as [| mp rest IH]; intros written.
  - exists []. cbn. rewrite app_nil_r.
    split; [reflexivity |]. split; [constructor |].
    split; [split; reflexivity |]. intros mask_path Hnth. discriminate Hnth.
  - cbn [mask_loop].
    destruct (quantify_mask pixel to_L rotate_resample cl n mp)
      as [row | e] eqn:Hrow.
    + destruct (IH (written ++ [row])) as (rows & Hsnd & Hall & Hok & Hfail).
      exists (row :: rows). rewrite Hsnd, <- app_assoc. cbn [app length firstn].
      split; [reflexivity |]. split; [now constructor |].
      split; [rewrite Hok; split; lia |].
      cbn [nth_error]. exact Hfail.
    + exists []. cbn [length firstn snd fst nth_error]. rewrite app_nil_r.
      split; [reflexivity |]. split; [constructor |].
      split; [split; [discriminate | cbn; lia] |].
      intros mask_path [= <-]. exists e. split; [exact Hrow | reflexivity].
Qed.

Lemma quantify_mask_row (cl : list ClusterPoint) (n : Z)
    (mask_path : string * option (image pixel)) (row : csv_row) :
  quantify_mask pixel to_L rotate_resample cl n mask_path = Ok row ->
  csv_mask_name row = fst mask_path /\
  csv_n_clusters row = n /\
  cl <> [] /\
  exists mask : ndarray2,
    get_mask pixel to_L rotate_resample (snd mask_path) = Ok mask /\
    csv_mask_area_px row = fst (get_mask_area mask) /\
    csv_mask_area_um row = snd (get_mask_area mask) /\
    (exists locs, get_cluster_count mask cl = Ok (csv_cluster_count row, locs)) /\
    csv_cluster_count_per_area row =
      fdiv (of_int (csv_cluster_count row)) (csv_mask_area_um row).
Proof.
  unfold quantify_mask.
  destruct (get_mask pixel to_L rotate_resample (snd mask_path))
    as [mask |]; [| discriminate].
  cbn [rbind]. rewrite mask_density_unfold.
  destruct (get_cluster_count mask cl) as [[count locs] |] eqn:Hcount;
    [| discriminate].
  cbn [rbind fst snd].
  destruct cl as [| xy cl]; [discriminate |].
  cbn [visualize_cluster_centers_mask rbind]. intros Hrow.
  apply Ok_inj in Hrow. subst row.
  cbn [csv_mask_name csv_n_clusters csv_mask_area_px csv_mask_area_um
       csv_cluster_count csv_cluster_count_per_area].
  split; [reflexivity |]. split; [reflexivity |]. split; [discriminate |].
  exists mask. split; [reflexivity |]. split; [reflexivity |].
  split; [reflexivity |]. split; [exists locs; exact Hcount | reflexivity].
Qed.

End PipelineFacts.

(** X12.  A cluster file with an empty table makes every directory that
    has a mask fail on its first mask, with nothing written: with
    [OSError] when that mask cannot be decoded, and otherwise with the
    [ValueError] of the plotting step, which cannot unpack the
    coordinates of zero clusters. *)
Theorem no_clusters_no_rows :
  forall (pixel : Type) (to_L : pixel -> Z)
         (rotate_resample : image Z -> image Z)
         (others : list (option h5_file)) (name : string)
         (file : option (image pixel))
         (rest : list (string * option (image pixel)))
         (written : list csv_row),
    run_quantify_clusters pixel to_L rotate_resample
      {| hdf5_files := Some {| clusters := Some [] |} :: others;
         mask_files := (name, file) :: rest |} written =
    (Raise (match file with None => OSError | Some _ => ValueError end),
     written).
Proof.
  intros pixel to_L rr others name file rest written.
  unfold run_quantify_clusters. cbn [hdf5_files mask_files list_first].
  cbn [get_xy_locs h5_getitem_clusters clusters rbind map column_stack
       combine length]. cbn [mask_loop].
  unfold quantify_mask. cbn [fst snd].
  destruct file as [opened |]; [| reflexivity].
  cbn [get_mask rbind]. rewrite mask_density_unfold.
  reflexivity.
Qed.

(** X13.  With the cluster file read, the rows a directory adds are, in
    the order of the masks, the rows of the masks up to the first one
    that fails, each named after its mask and carrying the total number
    of clusters; the rows written before are kept; the run ends well
    exactly when every mask got its row; and otherwise the first mask
    without a row is one whose processing raises, the run ending with
    that very exception. *)
Theorem directory_writes_rows_in_mask_order :
  forall (pixel : Type) (to_L : pixel -> Z)
         (rotate_resample : image Z -> image Z)
         (dir_path : directory pixel) (h5 : option h5_file)
         (cl : list ClusterPoint) (written : list csv_row),
    list_first (hdf5_files dir_path) = Ok h5 ->
    get_xy_locs h5 = Ok cl ->
    exists rows : list csv_row,
      snd (run_quantify_clusters pixel to_L rotate_resample dir_path written) =
        written ++ rows /\
      Forall2 (fun mask_path row =>
                 quantify_mask pixel to_L rotate_resample cl
                   (Z.of_nat (length cl)) mask_path = Ok row /\
                 csv_mask_name row = fst mask_path /\
                 csv_n_clusters row = Z.of_nat (length cl))
              (firstn (length rows) (mask_files dir_path)) rows /\
      (fst (run_quantify_clusters pixel to_L rotate_resample dir_path written) =
         Ok tt
       <-> length rows = length (mask_files dir_path)) /\
      (forall mask_path : string * option (image pixel),
          nth_error (mask_files dir_path) (length rows) = Some mask_path ->
          exists e : py_error,
            quantify_mask pixel to_L rotate_resample cl
              (Z.of_nat (length cl)) mask_path = Raise e /\
            fst (run_quantify_clusters pixel to_L rotate_resample dir_path
                   written) = Raise e).
Proof.
  intros pixel to_L rr dir_path h5 cl written Hh5 Hcl.
  unfold run_quantify_clusters. rewrite Hh5, Hcl. cbn zeta.
  destruct (mask_loop_rows pixel to_L rr cl (Z.of_nat (length cl))
              (mask_files dir_path) written)
    as (rows & Hsnd & Hall & Hok & Hfail).
  exists rows. split; [exact Hsnd |].
  split; [| split; [exact Hok | exact Hfail]].
  eapply List.Forall2_impl; [| exact Hall].
  intros mp row Hrow. split; [exact Hrow |].
  apply quantify_mask_row in Hrow as (Hname & Hn & _).
  now split.
Qed.

Lemma directory_writes_rows_in_mask_order_witness :
  let h5 := Some {| clusters :=
                      Some [{| com_x := Finite 0; com_y := Finite 0 |}] |} in
  let good := ("good"%string, Some (square_image 1 [[255]])) in
  let bad := ("bad"%string, @None (image Z)) in
  let dir := {| hdf5_files := [h5]; mask_files := [good; bad; good] |} in
  exists rows : list csv_row,
    snd (run_quantify_clusters Z (fun v => v) (fun img => img) dir []) =
      [] ++ rows /\
    map csv_mask_name rows = ["good"%string] /\
    fst (run_quantify_clusters Z (fun v => v) (fun img => img) dir []) =
      Raise OSError.
Proof.
  intros h5 good bad dir.
  destruct (directory_writes_rows_in_mask_order Z (fun v => v) (fun img => img)
              dir h5 [(rescale (Finite 0), rescale (Finite 0))] []
              eq_refl eq_refl) as (rows & Hsnd & _ & _ & Hfail).
  exists rows. split; [exact Hsnd |].
  assert (Hnames : map csv_mask_name rows = ["good"%string])
    by (cbn [app] in Hsnd; rewrite <- Hsnd; reflexivity).
  split; [exact Hnames |].
  assert (Hlen : length rows = 1%nat)
    by (rewrite <- (length_map csv_mask_name), Hnames; reflexivity).
  rewrite Hlen in Hfail.
  destruct (Hfail bad eq_refl) as (e & Hbad & Hrun).
  rewrite Hrun.
  assert (He : e = OSError) by (cbn in Hbad; congruence).
  now rewrite He.
Defined.

Section RowFacts.

Variable pixel : Type.
Variable to_L : pixel -> Z.
Variable rotate_resample : image Z -> image Z.

Lemma quantify_mask_consistent (cl : list ClusterPoint)
    (mask_path : string * option (image pixel)) (row : csv_row) :
  quantify_mask pixel to_L rotate_resample cl (Z.of_nat (length cl)) mask_path
    = Ok row ->
  row_consistent row.
Proof.
  intros Hrow.
  apply quantify_mask_row in Hrow
    as (_ & Hn & Hne & mask & _ & Hpx & Hum & (locs & Hcount) & Hd).
  unfold row_consistent. rewrite Hn, Hpx.
  unfold get_cluster_count in Hcount.
  apply count_loop_returns in Hcount as (pts & Hcl & _ & Hc & _).
  pose proof (List.filter_length_le (selects_nonzero mask) (map rounded pts))
    as Hle.
  rewrite length_map in Hle.
  assert (Hlen : length cl = length pts) by (rewrite Hcl; apply length_map).
  split; [lia |].
  split; [destruct cl; [congruence | cbn [length]; lia] |].
  split; [rewrite get_mask_area_px; apply np_sum_range |].
  split; [rewrite Hum; reflexivity | exact Hd].
Qed.

Lemma mask_loop_consistent (cl : list ClusterPoint)
    (masks_paths : list (string * option (image pixel))) :
  forall written,
    Forall row_consistent written ->
    Forall row_consistent
      (snd (mask_loop pixel to_L rotate_resample cl (Z.of_nat (length cl))
              masks_paths written)).
Proof.
  induction masks_paths as [| mp rest IH]; intros written Hw; [exact Hw |].
  cbn [mask_loop].
  destruct (quantify_mask pixel to_L rotate_resample cl _ mp)
    as [row |] eqn:Hrow; [| exact Hw].
  apply IH. apply List.Forall_app. split; [exact Hw |].
  constructor; [| constructor].
  now apply (quantify_mask_consistent cl mp).
Qed.

Lemma run_consistent (dir_path : directory pixel) (written : list csv_row) :
  Forall row_consistent written ->
  Forall row_consistent
    (snd (run_quantify_clusters pixel to_L rotate_resample dir_path written)).
Proof.
  intros Hw. unfold run_quantify_clusters.
  destruct (list_first (hdf5_files dir_path)) as [h5 |]; [| exact Hw].
  destruct (get_xy_locs h5) as [cl |]; [| exact Hw].
  now apply mask_loop_consistent.
Qed.

Lemma main_loop_app (a b : list (directory pixel)) :
  forall written,
    main_loop pixel to_L rotate_resample (a ++ b) written =
    match main_loop pixel to_L rotate_resample a written with
    | (Ok _, written') => main_loop pixel to_L rotate_resample b written'
    | (Raise e, written') => (Raise e, written')
    end.
Proof.
  induction a as [| d a IH]; intros written; [reflexivity |].
  cbn [app main_loop].
  destruct (run_quantify_clusters pixel to_L rotate_resample d written)
    as [[u | e] w]; [apply IH | reflexivity].
Qed.

End RowFacts.

(** X14.  Every row [main] writes is consistent: its count lies between
    0 and the total number of clusters, which is at least 1; its area in
    pixels lies in [[0, 2^64)]; its area in square micrometres is that
    area times the squared pixel size; and its density is the count
    divided by that area. *)
Theorem every_written_row_is_consistent :
  forall (pixel : Type) (to_L : pixel -> Z)
         (rotate_resample : image Z -> image Z)
         (DIR_PATHS : list (directory pixel)),
    Forall row_consistent (snd (main pixel to_L rotate_resample DIR_PATHS)).
Proof.
  intros pixel to_L rr DIR_PATHS. unfold main.
  assert (H : forall written,
             Forall row_consistent written ->
             Forall row_consistent
               (snd (main_loop pixel to_L rr DIR_PATHS written))).
  { induction DIR_PATHS as [| d rest IH]; intros written Hw; [exact Hw |].
    cbn [main_loop].
    pose proof (run_consistent pixel to_L rr d written Hw) as Hrun.
    destruct (run_quantify_clusters pixel to_L rr d written) as [[u | e] w];
      [now apply IH | exact Hrun]. }
  apply H. constructor.
Qed.

(** X15.  Running [main] on a list of directories followed by another is
    running it on the first and, if that ends well, going on with the
    second from the rows written so far. *)
Theorem directories_compose :
  forall (pixel : Type) (to_L : pixel -> Z)
         (rotate_resample : image Z -> image Z)
         (a b : list (directory pixel)),
    main pixel to_L rotate_resample (a ++ b) =
    match main pixel to_L rotate_resample a with
    | (Ok _, written) => main_loop pixel to_L rotate_resample b written
    | (Raise e, written) => (Raise e, written)
    end.
Proof.
  intros pixel to_L rr a b. unfold main. apply main_loop_app.
Qed.

Lemma filter_none_forall {A} (f : A -> bool) (l : list A) :
  length (List.filter f l) = 0%nat -> Forall (fun a => f a = false) l.
Proof.
  induction l as [| a l IH]; intros Hlen; [constructor |].
  cbn in Hlen. destruct (f a) eqn:Hf; [discriminate Hlen |].
  constructor; [exact Hf | now apply IH].
Qed.

Lemma count_nonzero_zero (m : ndarray2) :
  count_nonzero m = 0 -> all_zero m.
Proof.
  unfold count_nonzero, all_zero. intros Hc.
  apply List.Forall_concat.
  assert (Hlen : length (List.filter (fun v => negb (v =? 0)) (concat m)) = 0%nat)
    by lia.
  apply filter_none_forall in Hlen.
  eapply List.Forall_impl; [| exact Hlen].
  intros v Hv. cbn beta in Hv.
  apply negb_false_iff in Hv. now apply Z.eqb_eq.
Qed.

(** A quotient of two approximations: with the numerator within
    [2^-53] and the positive denominator within [2^-50], relatively, the
    quotient is within [3 * 2^-51] of the exact one. *)
Lemma quotient_close (a um c P : Q) :
  (0 <= c)%Q -> (0 < P)%Q ->
  (- ((1 # 9007199254740992) * c) <= a - c <= (1 # 9007199254740992) * c)%Q ->
  (Qabs (um - P) <= (1 # 1125899906842624) * P)%Q ->
  (0 < um)%Q /\
  (- ((3 # 2251799813685248) * (c / P)) <= a / um - c / P
   <= (3 # 2251799813685248) * (c / P))%Q.
Proof.
  intros Hc HP Ha Hum.
  apply Qabs_Qle_condition in Hum.
  assert (Hpos : (0 < um)%Q) by lra.
  split; [exact Hpos |].
  assert (Hne : ~ (um == 0)%Q) by lra.
  assert (HPne : ~ (P == 0)%Q) by lra.
  assert (Ht : (a / um * um == a)%Q) by (field; exact Hne).
  assert (HE : (c / P * P == c)%Q) by (field; exact HPne).
  assert (HE0 : (0 <= c / P)%Q)
    by (apply Qle_shift_div_l; [exact HP | lra]).
  set (t := (a / um)%Q) in *. set (E := (c / P)%Q) in *.
  clearbody t E.
  assert (Hlow : (E * (P - (1 # 1125899906842624) * P) <= E * um)%Q).
  { rewrite !(Qmult_comm E). apply Qmult_le_compat_r; [lra | exact HE0]. }
  assert (Hhigh : (E * um <= E * (P + (1 # 1125899906842624) * P))%Q).
  { rewrite !(Qmult_comm E). apply Qmult_le_compat_r; [lra | exact HE0]. }
  assert (Hl : (E * (P - (1 # 1125899906842624) * P) ==
                c - (1 # 1125899906842624) * c)%Q)
    by (rewrite <- HE; ring).
  assert (Hh : (E * (P + (1 # 1125899906842624) * P) ==
                c + (1 # 1125899906842624) * c)%Q)
    by (rewrite <- HE; ring).
  rewrite Hl in Hlow. rewrite Hh in Hhigh.
  split.
  - assert (H : ((E - (3 # 2251799813685248) * E) * um <= t * um)%Q).
    { rewrite Ht.
      assert (Hx : ((E - (3 # 2251799813685248) * E) * um ==
                    E * um - (3 # 2251799813685248) * (E * um))%Q) by ring.
      rewrite Hx. lra. }
    apply (proj1 (Qmult_le_r _ _ um Hpos)) in H. lra.
  - assert (H : (t * um <= (E + (3 # 2251799813685248) * E) * um)%Q).
    { rewrite Ht.
      assert (Hx : ((E + (3 # 2251799813685248) * E) * um ==
                    E * um + (3 # 2251799813685248) * (E * um))%Q) by ring.
      rewrite Hx. lra. }
    apply (proj1 (Qmult_le_r _ _ um Hpos)) in H. lra.
Qed.

(** One cluster on three cells of 10 nm: the density is the double next
    below 10000 / 3. *)
Remark density_of_one_cluster_on_three_cells :
  (exists um : np_float,
      mask_density [[1; 1; 1]] [finite_point (0, 0)%Q] =
      Ok (3, um, 1, [(0, 0)],
          Finite (7330077518506666 # 2199023255552))) /\
  (7330077518506666 # 2199023255552 < 10000 # 3)%Q.
Proof.
  split; [eexists; vm_compute; reflexivity | reflexivity].
Qed.

(** X16.  For an 8-bit mask (cell count below 2^64) and fewer than 2^64
    clusters, when the density is computed it is never infinite: it is
    NaN when the mask has no non-zero cell, and otherwise a non-negative
    double, zero when no cluster is counted, within [2^-49], relatively,
    of [count / (area_px / 10000)]. *)
Theorem density_is_nan_or_finite :
  forall (m : ndarray2) (r c : nat) (cl : list ClusterPoint)
         (px : Z) (um : np_float) (count : Z) (locs : list (Z * Z))
         (density : np_float),
    has_shape m r c ->
    uint8_array m ->
    Z.of_nat (r * c) < 2 ^ 64 ->
    Z.of_nat (length cl) < 2 ^ 64 ->
    mask_density m cl = Ok (px, um, count, locs, density) ->
    px = count_nonzero m /\
    (px = 0 -> density = NaN) /\
    (0 < px ->
     exists q : Q,
       density = Finite q /\ (0 <= q)%Q /\
       (count = 0 -> q = 0%Q) /\
       (Qabs (q - inject_Z count / (inject_Z px * (1 # 10000))) <=
        pow2 (-49) * (inject_Z count / (inject_Z px * (1 # 10000))))%Q).
Proof.
  intros m r c cl px um count locs density Hs Hu Hfit Hcl Hd.
  rewrite mask_density_unfold in Hd.
  destruct (get_cluster_count m cl) as [[count' locs'] |] eqn:Hrun;
    [| discriminate Hd].
  cbn [rbind fst snd] in Hd. apply Ok_inj in Hd.
  apply pair_equal_spec in Hd as [Hd Hden].
  apply pair_equal_spec in Hd as [Hd _].
  apply pair_equal_spec in Hd as [Hd Hcnt].
  apply pair_equal_spec in Hd as [Hpx Hum].
  subst count'.
  assert (Harea : px = count_nonzero m)
    by (rewrite <- Hpx; now apply (area_from_count m r c)).
  assert (Hcount : 0 <= count < 2 ^ 64).
  { unfold get_cluster_count in Hrun.
    apply count_loop_returns in Hrun as (pts & Hpts & _ & -> & _).
    pose proof (List.filter_length_le (selects_nonzero m) (map rounded pts))
      as Hle.
    rewrite length_map in Hle.
    rewrite Hpts, length_map in Hcl. lia. }
  split; [exact Harea |]. split.
  - intros Hzero.
    assert (Hz : all_zero m)
      by (apply count_nonzero_zero; now rewrite <- Harea).
    apply (all_zero_count_loop m cl Hz) in Hrun.
    apply pair_equal_spec in Hrun as [-> _].
    rewrite <- Hden, get_mask_area_um, Hpx, Hzero. reflexivity.
  - intros Hpos.
    assert (Hrange : 0 <= px < 2 ^ 64)
      by (rewrite <- Hpx, get_mask_area_px; apply np_sum_range).
    destruct (area_um_close px Hrange) as (u & Hu' & _ & _ & Hupos & Huerr).
    destruct (of_int_unsigned count Hcount) as (a & Ha & Hazero & Haerr).
    rewrite get_mask_area_um, Hpx, Hu', Ha in Hden.
    specialize (Hupos Hpos).
    assert (Hsign : Qsign u = Gt) by (unfold Qsign; now apply Qgt_alt).
    cbn [fdiv] in Hden. rewrite Hsign in Hden.
    change (pow2 (-49)) with (1 # 562949953421312)%Q.
    change (pow2 (-50)) with (1 # 1125899906842624)%Q in Huerr.
    assert (HP : (0 < inject_Z px * (1 # 10000))%Q).
    { apply Qmult_lt_0_compat; [| reflexivity].
      change 0%Q with (inject_Z 0). now rewrite <- Zlt_Qlt. }
    assert (Hc0 : (0 <= inject_Z count)%Q)
      by (change 0%Q with (inject_Z 0); rewrite <- Zle_Qle; lia).
    destruct (quotient_close a u (inject_Z count) (inject_Z px * (1 # 10000))
                Hc0 HP Haerr Huerr) as (_ & Hquot).
    assert (HE0 : (0 <= inject_Z count / (inject_Z px * (1 # 10000)))%Q)
      by (apply Qle_shift_div_l; [exact HP | lra]).
    destruct (Z.eq_dec count 0) as [Hzero | Hnz].
    + exists 0%Q. rewrite (Hazero Hzero) in Hden.
      split; [rewrite <- Hden; apply round64_zero; unfold Qdiv; ring |].
      split; [lra |]. split; [reflexivity |].
      subst count. change (inject_Z 0) with 0%Q.
      assert (Hq0 : (0 / (inject_Z px * (1 # 10000)) == 0)%Q)
        by (unfold Qdiv; ring).
      rewrite Hq0. apply Qabs_Qle_condition. lra.
    + assert (H1 : (1 <= inject_Z count)%Q)
        by (change 1%Q with (inject_Z 1); rewrite <- Zle_Qle; lia).
      assert (H2 : (inject_Z count < 18446744073709551616)%Q)
        by (change 18446744073709551616%Q with (inject_Z (2 ^ 64));
            rewrite <- Zlt_Qlt; apply Hcount).
      assert (H3 : (inject_Z px < 18446744073709551616)%Q)
        by (change 18446744073709551616%Q with (inject_Z (2 ^ 64));
            rewrite <- Zlt_Qlt; apply Hrange).
      assert (H4 : (1 <= inject_Z px)%Q)
        by (change 1%Q with (inject_Z 1); rewrite <- Zle_Qle; lia).
      apply Qabs_Qle_condition in Huerr.
      assert (P1 : (pow2 (-1022) <= pow2 (-66))%Q) by (apply pow2_le; lia).
      change (pow2 (-66)) with (1 # 73786976294838206464)%Q in P1.
      assert (P2 : (pow2 80 < pow2 1023)%Q) by (apply pow2_lt; lia).
      change (pow2 80) with 1208925819614629174706176%Q in P2.
      assert (Hlo : ((1 # 73786976294838206464) <= a / u)%Q).
      { apply Qle_shift_div_l; [exact Hupos | lra]. }
      assert (Hhi : (a / u <= 604462909807314587353088)%Q).
      { apply Qle_shift_div_r; [exact Hupos | lra]. }
      assert (Habs : (Qabs (a / u) == a / u)%Q) by (apply Qabs_pos; lra).
      destruct (round64_close (a / u)) as (q & Hq & Hqerr).
      { rewrite Habs. lra. }
      { rewrite Habs. lra. }
      exists q. rewrite Hq in Hden.
      split; [now rewrite <- Hden |].
      rewrite Habs in Hqerr.
      split; [lra |]. split; [intros Hz; contradiction |].
      apply Qabs_Qle_condition. lra.
Qed.

Lemma density_is_nan_or_finite_witness :
  let m := [[0; 5]; [7; 0]] in
  let cl := map finite_point [(0, 1); (0, 0)]%Q in
  has_shape m 2 2 /\ uint8_array m /\
  (exists q : Q,
      mask_density m cl =
        Ok (2, snd (get_mask_area m), 1, [(0, 1)], Finite q) /\
      (0 <= q)%Q).
Proof.
  intros m cl.
  assert (Hs : has_shape m 2 2)
    by (split; [reflexivity | repeat constructor]).
  assert (Hu : uint8_array m)
    by (repeat constructor; vm_compute; discriminate).
  assert (Hfit : Z.of_nat (2 * 2) < 2 ^ 64) by reflexivity.
  assert (Hcl : Z.of_nat (length cl) < 2 ^ 64) by reflexivity.
  assert (Hrun : mask_density m cl =
                 Ok (2, snd (get_mask_area m), 1, [(0, 1)],
                     fdiv (of_int 1) (snd (get_mask_area m))))
    by (vm_compute; reflexivity).
  split; [exact Hs |]. split; [exact Hu |].
  destruct (density_is_nan_or_finite m 2%nat 2%nat cl 2 (snd (get_mask_area m))
              1 [(0, 1)] _ Hs Hu Hfit Hcl Hrun) as (_ & _ & Hfin).
  destruct (Hfin eq_refl) as (q & Hq & Hpos & _).
  exists q. split; [| exact Hpos].
  rewrite <- Hq. exact Hrun.
Defined.

(* ===================================================================== *)
(** ** Properties of the file names                                       *)
(* ===================================================================== *)

Lemma chars_append (a b : string) :
  list_ascii_of_string (a ++ b) =
  list_ascii_of_string a ++ list_ascii_of_string b.
Proof.
  induction a as [| ch a IH]; [reflexivity |].
  change (ch :: list_ascii_of_string (a ++ b) =
          ch :: (list_ascii_of_string a ++ list_ascii_of_string b)).
  now rewrite IH.
Qed.

Lemma chars_injective (a b : string) :
  list_ascii_of_string a = list_ascii_of_string b -> a = b.
Proof.
  intros H. rewrite <- (string_of_list_ascii_of_string a).
  rewrite <- (string_of_list_ascii_of_string b). now rewrite H.
Qed.

Lemma append_inv_head (a b c : string) :
  (a ++ b)%string = (a ++ c)%string -> b = c.
Proof.
  intros H. apply chars_injective.
  apply (f_equal list_ascii_of_string) in H.
  rewrite !chars_append in H. now apply app_inv_head in H.
Qed.

Lemma append_inv_tail (a b c : string) :
  (a ++ c)%string = (b ++ c)%string -> a = b.
Proof.
  intros H. apply chars_injective.
  apply (f_equal list_ascii_of_string) in H.
  rewrite !chars_append in H. now apply app_inv_tail in H.
Qed.

Lemma csv_name_injective (cluster_file a b : string) :
  csv_name cluster_file a = csv_name cluster_file b -> a = b.
Proof.
  unfold csv_name. intros H.
  apply append_inv_head in H. now apply append_inv_tail in H.
Qed.

Lemma starts_with_app (p l : list ascii) : starts_with p (p ++ l) = true.
Proof.
  induction p as [| a p IH]; [reflexivity |].
  cbn. now rewrite Ascii.eqb_refl, IH.
Qed.

Lemma contains_chars_app (sub a b : list ascii) :
  contains_chars sub (a ++ sub ++ b) = true.
Proof.
  induction a as [| ch a IH].
  - cbn [app]. destruct (sub ++ b) eqn:E; cbn [contains_chars];
      rewrite <- E, starts_with_app; reflexivity.
  - cbn [app contains_chars]. rewrite IH. apply orb_true_r.
Qed.

Lemma rsplit_dot_joins (reversed : list ascii) :
  forall after root ext,
    rsplit_dot reversed after = Some (root, ext) ->
    root ++ ext = rev reversed ++ after.
Proof.
  induction reversed as [| a before IH]; intros after root ext; [discriminate |].
  cbn [rsplit_dot rev]. destruct (is_dot a).
  - intros [= <- <-]. now rewrite <- app_assoc.
  - intros H. apply IH in H. now rewrite <- app_assoc.
Qed.

Lemma plot_name_reversed (m : string) :
  rev (list_ascii_of_string (plot_name m)) =
  rev (list_ascii_of_string "_FOV_mask_locs.png") ++
  rev (list_ascii_of_string m).
Proof. unfold plot_name. now rewrite chars_append, rev_app_distr. Qed.

Lemma csv_name_reversed (cluster_file m : string) :
  rev (list_ascii_of_string (csv_name cluster_file m)) =
  rev (list_ascii_of_string ".csv") ++
  rev (list_ascii_of_string (fst (splitext cluster_file) ++ m)).
Proof.
  unfold csv_name.
  replace (fst (splitext cluster_file) ++ m ++ ".csv")%string
    with ((fst (splitext cluster_file) ++ m) ++ ".csv")%string.
  - now rewrite chars_append, rev_app_distr.
  - apply chars_injective. rewrite !chars_append. now rewrite app_assoc.
Qed.

(** A file the run has written is picked by neither listing. *)
Lemma written_name_not_selected (name : string) :
  (exists m, name = plot_name m) \/
  (exists cluster_file m, name = csv_name cluster_file m) ->
  endswith name ".hdf5" = false /\
  endswith_any name [".tif"; ".png"; ".jpg"]%string &&
    negb (str_contains "_FOV_mask_locs" name) = false.
Proof.
  intros [[m ->] | (cluster_file & m & ->)].
  - split.
    + unfold endswith. rewrite plot_name_reversed. reflexivity.
    + assert (Hc : str_contains "_FOV_mask_locs" (plot_name m) = true).
      { unfold str_contains, plot_name. rewrite chars_append.
        change (list_ascii_of_string "_FOV_mask_locs.png")
          with (list_ascii_of_string "_FOV_mask_locs" ++
                list_ascii_of_string ".png").
        apply contains_chars_app. }
      rewrite Hc. apply andb_false_r.
  - unfold endswith_any, endswith. cbn [existsb].
    rewrite csv_name_reversed. split; reflexivity.
Qed.

(** X17.  The files a run leaves in the directory do not change what a
    later run selects there: wherever in the listing it stands, an entry
    named like a saved figure ([..._FOV_mask_locs.png]) or like a saved
    table ([....csv]) is taken neither for a cluster file nor for a
    mask. *)
Theorem written_files_are_never_selected :
  forall (P : Type) (before after : list (dir_entry P)) (file : dir_entry P),
    (exists m, entry_name file = plot_name m) \/
    (exists cluster_file m, entry_name file = csv_name cluster_file m) ->
    scan_directory (before ++ file :: after) = scan_directory (before ++ after).
Proof.
  intros P before after file Hname.
  apply written_name_not_selected in Hname as [Hh5 Hmask].
  unfold scan_directory, cluster_paths, masks_paths.
  rewrite !List.filter_app. cbn [List.filter].
  now rewrite Hh5, Hmask.
Qed.

Lemma written_files_are_never_selected_witness :
  let cluster := {| entry_name := "c.hdf5"; entry_h5 := None;
                    entry_image := @None (image Z) |} in
  let mask := {| entry_name := "a.tif"; entry_h5 := None;
                 entry_image := @None (image Z) |} in
  let figure := {| entry_name := "a_FOV_mask_locs.png"; entry_h5 := None;
                   entry_image := Some (square_image 1 [[255]]) |} in
  scan_directory ([cluster] ++ figure :: [mask]) =
  {| hdf5_files := [None]; mask_files := [("a"%string, None)] |}.
Proof.
  intros cluster mask figure.
  rewrite (written_files_are_never_selected Z [cluster] [mask] figure).
  - reflexivity.
  - left. exists "a"%string. reflexivity.
Defined.

(** X18.  A name is always the two parts [os.path.splitext] gives it,
    joined; and a mask file named [s.tif], [s.png] or [s.jpg], with [s]
    not made of dots only, has the mask name [s], so that two such files
    that differ only in their extension share their mask name. *)
Theorem mask_name_drops_the_extension :
  (forall p : string,
      (fst (splitext p) ++ snd (splitext p))%string = p) /\
  (forall (s ext : string),
      In ext [".tif"; ".png"; ".jpg"]%string ->
      has_non_dot s = true ->
      splitext (s ++ ext) = (s, ext)).
Proof.
  split.
  - intros p. unfold splitext.
    destruct (rsplit_dot (rev (list_ascii_of_string p)) [])
      as [[root ext] |] eqn:Hsplit.
    + destruct (forallb is_dot root).
      * cbn [fst snd]. apply chars_injective.
        rewrite chars_append. apply app_nil_r.
      * cbn [fst snd]. apply chars_injective.
        rewrite chars_append, !list_ascii_of_string_of_list_ascii.
        apply rsplit_dot_joins in Hsplit.
        now rewrite Hsplit, rev_involutive, app_nil_r.
    + cbn [fst snd]. apply chars_injective.
      rewrite chars_append. apply app_nil_r.
  - intros s ext Hext Hs. unfold has_non_dot in Hs.
    apply negb_true_iff in Hs.
    unfold splitext. rewrite chars_append, rev_app_distr.
    destruct Hext as [<- | [<- | [<- | []]]];
      cbn [list_ascii_of_string rev app rsplit_dot is_dot Ascii.eqb
           Bool.eqb];
      rewrite rev_involutive, Hs, string_of_list_ascii_of_string;
      reflexivity.
Qed.

Lemma mask_name_drops_the_extension_witness :
  In ".png"%string [".tif"; ".png"; ".jpg"]%string /\
  has_non_dot "cell.1" = true /\
  splitext "cell.1.png" = ("cell.1"%string, ".png"%string).
Proof.
  assert (Hext : In ".png"%string [".tif"; ".png"; ".jpg"]%string)
    by (right; now left).
  assert (Hs : has_non_dot "cell.1" = true) by reflexivity.
  split; [exact Hext |]. split; [exact Hs |].
  exact (proj2 mask_name_drops_the_extension "cell.1"%string ".png"%string
           Hext Hs).
Defined.

(* ===================================================================== *)
(** ** Properties of the written tables                                   *)
(* ===================================================================== *)

Lemma plot_name_injective (a b : string) :
  plot_name a = plot_name b -> a = b.
Proof. unfold plot_name. apply append_inv_tail. Qed.

Lemma plot_name_not_csv_name (cluster_file a b : string) :
  plot_name a <> csv_name cluster_file b.
Proof.
  intros H.
  apply (f_equal (fun s => rev (list_ascii_of_string s))) in H.
  rewrite plot_name_reversed, csv_name_reversed in H.
  discriminate H.
Qed.

Section FileFacts.

Variable pixel : Type.
Variable to_L : pixel -> Z.
Variable rotate_resample : image Z -> image Z.

Lemma mask_loop_from_nil (cl : list ClusterPoint) (n : Z)
    (masks : list (string * option (image pixel))) :
  forall written,
    mask_loop pixel to_L rotate_resample cl n masks written =
    (fst (mask_loop pixel to_L rotate_resample cl n masks []),
     written ++ snd (mask_loop pixel to_L rotate_resample cl n masks [])).
Proof.
  induction masks as [| mp rest IH]; intros written.
  - cbn. now rewrite app_nil_r.
  - cbn [mask_loop].
    destruct (quantify_mask pixel to_L rotate_resample cl n mp) as [row |].
    + rewrite (IH (written ++ [row])), (IH ([] ++ [row])).
      cbn [fst snd]. now rewrite <- app_assoc.
    + cbn. now rewrite app_nil_r.
Qed.

(** One pass of the loop with the files: it fails as the pass without
    them does, leaving the files as they were; otherwise it saves the
    figure and then the row, and goes on. *)
Lemma mask_loop_files_step (cluster_file : string) (cl : list ClusterPoint)
    (n : Z) (mp : string * option (image pixel))
    (rest : list (string * option (image pixel)))
    (files : gmap string written_file) :
  match quantify_mask pixel to_L rotate_resample cl n mp with
  | Raise e =>
      mask_loop_files pixel to_L rotate_resample cluster_file cl n
        (mp :: rest) files = (Raise e, files)
  | Ok row =>
      csv_mask_name row = fst mp /\
      exists (locs : list (Z * Z)) (mask : ndarray2),
        get_cluster_count mask cl = Ok (csv_cluster_count row, locs) /\
        csv_mask_area_px row = fst (get_mask_area mask) /\
        mask_loop_files pixel to_L rotate_resample cluster_file cl n
          (mp :: rest) files =
        mask_loop_files pixel to_L rotate_resample cluster_file cl n rest
          (<[csv_name cluster_file (fst mp) := CsvFile csv_header row]>
             (<[plot_name (fst mp) := Figure cl locs mask]> files))
  end.
Proof.
  unfold quantify_mask. cbn [mask_loop_files].
  destruct (get_mask pixel to_L rotate_resample (snd mp)) as [mask |];
    [| reflexivity].
  cbn [rbind].
  destruct (mask_density mask cl) as [[[[[px um] count] locs] density] |]
    eqn:Hd; [| reflexivity].
  cbn [rbind]. unfold visualize_cluster_centers_mask_files.
  destruct (visualize_cluster_centers_mask cl locs mask); [| reflexivity].
  cbn [rbind csv_mask_name csv_cluster_count csv_mask_area_px].
  split; [reflexivity |]. exists locs, mask.
  rewrite mask_density_unfold in Hd.
  destruct (get_cluster_count mask cl) as [[count' locs'] |];
    [| discriminate Hd].
  cbn [rbind fst snd] in Hd. apply Ok_inj in Hd.
  apply pair_equal_spec in Hd as [Hd _].
  apply pair_equal_spec in Hd as [Hd <-].
  apply pair_equal_spec in Hd as [Hd <-].
  apply pair_equal_spec in Hd as [<- _].
  split; [reflexivity |]. split; reflexivity.
Qed.

Lemma mask_loop_step (cl : list ClusterPoint) (n : Z)
    (mp : string * option (image pixel))
    (rest : list (string * option (image pixel))) (row : csv_row) :
  quantify_mask pixel to_L rotate_resample cl n mp = Ok row ->
  mask_loop pixel to_L rotate_resample cl n (mp :: rest) [] =
  (fst (mask_loop pixel to_L rotate_resample cl n rest []),
   row :: snd (mask_loop pixel to_L rotate_resample cl n rest [])).
Proof.
  intros Hrow. cbn [mask_loop]. rewrite Hrow.
  now rewrite (mask_loop_from_nil cl n rest ([] ++ [row])).
Qed.

(** The loop with the files ends as the loop without them. *)
Lemma mask_loop_files_ends (cluster_file : string) (cl : list ClusterPoint)
    (n : Z) (masks : list (string * option (image pixel))) :
  forall files,
    fst (mask_loop_files pixel to_L rotate_resample cluster_file cl n masks
           files) =
    fst (mask_loop pixel to_L rotate_resample cl n masks []).
Proof.
  induction masks as [| mp rest IH]; intros files; [reflexivity |].
  pose proof (mask_loop_files_step cluster_file cl n mp rest files) as Hstep.
  destruct (quantify_mask pixel to_L rotate_resample cl n mp)
    as [row | e] eqn:Hrow.
  - destruct Hstep as (_ & locs & mask & _ & _ & ->).
    rewrite (mask_loop_step cl n mp rest row Hrow). apply IH.
  - rewrite Hstep. cbn [mask_loop]. now rewrite Hrow.
Qed.

(** The table of a mask name holds the last row written under it. *)
Lemma mask_loop_files_table (cluster_file name : string)
    (cl : list ClusterPoint) (n : Z)
    (masks : list (string * option (image pixel))) :
  forall (files : gmap string written_file) (found : option csv_row)
         (kept : option written_file),
    files !! csv_name cluster_file name =
      match found with
      | Some row => Some (CsvFile csv_header row)
      | None => kept
      end ->
    snd (mask_loop_files pixel to_L rotate_resample cluster_file cl n masks
           files) !! csv_name cluster_file name =
    match fold_left (fun found row =>
                       if String.eqb (csv_mask_name row) name
                       then Some row else found)
                    (snd (mask_loop pixel to_L rotate_resample cl n masks []))
                    found with
    | Some row => Some (CsvFile csv_header row)
    | None => kept
    end.
Proof.
  induction masks as [| mp rest IH]; intros files found kept Hfiles;
    [exact Hfiles |].
  pose proof (mask_loop_files_step cluster_file cl n mp rest files) as Hstep.
  destruct (quantify_mask pixel to_L rotate_resample cl n mp)
    as [row | e] eqn:Hrow.
  - destruct Hstep as (Hname & locs & mask & _ & _ & ->).
    rewrite (mask_loop_step cl n mp rest row Hrow).
    cbn [snd fold_left]. apply IH. rewrite Hname.
    destruct (String.eqb_spec (fst mp) name) as [-> | Hne].
    + apply lookup_insert_eq.
    + rewrite lookup_insert_ne
        by (intros Heq; apply csv_name_injective in Heq; contradiction).
      rewrite lookup_insert_ne; [exact Hfiles |].
      apply plot_name_not_csv_name.
  - rewrite Hstep. cbn [mask_loop]. rewrite Hrow. exact Hfiles.
Qed.

(** The figure of a mask name is the one saved with the last row written
    under it. *)
Lemma mask_loop_files_figure (cluster_file name : string)
    (cl : list ClusterPoint) (n : Z)
    (masks : list (string * option (image pixel))) :
  forall (files : gmap string written_file) (found : option csv_row)
         (kept : option written_file),
    match found with
    | Some row => figure_of_row cl row (files !! plot_name name)
    | None => files !! plot_name name = kept
    end ->
    match fold_left (fun found row =>
                       if String.eqb (csv_mask_name row) name
                       then Some row else found)
                    (snd (mask_loop pixel to_L rotate_resample cl n masks []))
                    found with
    | Some row =>
        figure_of_row cl row
          (snd (mask_loop_files pixel to_L rotate_resample cluster_file cl n
                  masks files) !! plot_name name)
    | None =>
        snd (mask_loop_files pixel to_L rotate_resample cluster_file cl n
               masks files) !! plot_name name = kept
    end.
Proof.
  induction masks as [| mp rest IH]; intros files found kept Hfiles;
    [exact Hfiles |].
  pose proof (mask_loop_files_step cluster_file cl n mp rest files) as Hstep.
  destruct (quantify_mask pixel to_L rotate_resample cl n mp)
    as [row | e] eqn:Hrow.
  - destruct Hstep as (Hname & locs & mask & Hcount & Hpx & ->).
    rewrite (mask_loop_step cl n mp rest row Hrow).
    cbn [snd fold_left]. apply IH. rewrite Hname.
    assert (Hcsv : plot_name name <> csv_name cluster_file (fst mp))
      by apply plot_name_not_csv_name.
    rewrite lookup_insert_ne by (intros Heq; now apply Hcsv).
    destruct (String.eqb_spec (fst mp) name) as [-> | Hne].
    + rewrite lookup_insert_eq. exists locs, mask.
      split; [reflexivity |]. split; [exact Hcount | exact Hpx].
    + rewrite lookup_insert_ne
        by (intros Heq; apply plot_name_injective in Heq; contradiction).
      exact Hfiles.
  - rewrite Hstep. cbn [mask_loop]. rewrite Hrow. exact Hfiles.
Qed.

(** No path other than those of the tables and of the figures is
    touched. *)
Lemma mask_loop_files_frame (cluster_file path : string)
    (cl : list ClusterPoint) (n : Z)
    (masks : list (string * option (image pixel))) :
  (forall name, path <> csv_name cluster_file name) ->
  (forall name, path <> plot_name name) ->
  forall files : gmap string written_file,
    snd (mask_loop_files pixel to_L rotate_resample cluster_file cl n masks
           files) !! path = files !! path.
Proof.
  intros Hcsv Hplot.
  induction masks as [| mp rest IH]; intros files; [reflexivity |].
  pose proof (mask_loop_files_step cluster_file cl n mp rest files) as Hstep.
  destruct (quantify_mask pixel to_L rotate_resample cl n mp) as [row | e].
  - destruct Hstep as (_ & locs & mask & _ & _ & ->).
    rewrite IH.
    rewrite lookup_insert_ne by (intros Heq; now apply (Hcsv (fst mp))).
    apply lookup_insert_ne. intros Heq. now apply (Hplot (fst mp)).
  - now rewrite Hstep.
Qed.

End FileFacts.

(** X19.  After a run on a directory, the table named after the cluster
    file and a mask name holds the row of the last mask with that name:
    when two masks share their name, the row of the earlier one is
    overwritten; and the figure named after that mask name is the one
    saved with that row, showing the clusters, the mask and the points
    counted inside it.  A name that no written row carries keeps the
    table and the figure it had, and no file other than these tables and
    figures is touched.  The run ends as the run on the scanned
    directory does. *)
Theorem tables_hold_the_last_row_per_mask_name :
  forall (pixel : Type) (to_L : pixel -> Z)
         (rotate_resample : image Z -> image Z)
         (listing : list (dir_entry pixel))
         (files : gmap string written_file)
         (cluster_path : dir_entry pixel),
    list_first (cluster_paths listing) = Ok cluster_path ->
    fst (run_quantify_clusters_files pixel to_L rotate_resample listing files) =
    fst (run_quantify_clusters pixel to_L rotate_resample
           (scan_directory listing) []) /\
    (forall name : string,
        snd (run_quantify_clusters_files pixel to_L rotate_resample
               listing files)
          !! csv_name (entry_name cluster_path) name =
        match last_row_named name
                (snd (run_quantify_clusters pixel to_L rotate_resample
                        (scan_directory listing) [])) with
        | Some row => Some (CsvFile csv_header row)
        | None => files !! csv_name (entry_name cluster_path) name
        end) /\
    (forall name : string,
        match last_row_named name
                (snd (run_quantify_clusters pixel to_L rotate_resample
                        (scan_directory listing) [])) with
        | Some row =>
            exists cl : list ClusterPoint,
              get_xy_locs (entry_h5 cluster_path) = Ok cl /\
              figure_of_row cl row
                (snd (run_quantify_clusters_files pixel to_L rotate_resample
                        listing files) !! plot_name name)
        | None =>
            snd (run_quantify_clusters_files pixel to_L rotate_resample
                   listing files) !! plot_name name =
            files !! plot_name name
        end) /\
    (forall path : string,
        (forall name, path <> csv_name (entry_name cluster_path) name) ->
        (forall name, path <> plot_name name) ->
        snd (run_quantify_clusters_files pixel to_L rotate_resample
               listing files) !! path = files !! path).
Proof.
  intros pixel to_L rr listing files cluster_path Hfirst.
  unfold run_quantify_clusters_files, run_quantify_clusters.
  rewrite Hfirst.
  assert (Hh5 : list_first (hdf5_files (scan_directory listing)) =
                Ok (entry_h5 cluster_path)).
  { cbn [scan_directory hdf5_files].
    destruct (cluster_paths listing) as [| e rest]; [discriminate Hfirst |].
    injection Hfirst as ->. reflexivity. }
  rewrite Hh5.
  destruct (get_xy_locs (entry_h5 cluster_path)) as [cl |].
  - cbn zeta.
    split; [apply mask_loop_files_ends |]. split; [| split].
    + intros name. unfold last_row_named.
      now apply (mask_loop_files_table pixel to_L rr (entry_name cluster_path)
                   name cl _ _ files None).
    + intros name. unfold last_row_named.
      pose proof (mask_loop_files_figure pixel to_L rr
                    (entry_name cluster_path) name cl
                    (Z.of_nat (length cl))
                    (mask_files (scan_directory listing)) files None
                    (files !! plot_name name) eq_refl) as Hfig.
      destruct (fold_left _ _ None) as [row |]; [| exact Hfig].
      exists cl. split; [reflexivity | exact Hfig].
    + intros path Hcsv Hplot. now apply mask_loop_files_frame.
  - cbn [fst snd]. split; [reflexivity |]. split; [reflexivity |].
    split; [| reflexivity]. intros name. reflexivity.
Qed.

Lemma tables_hold_the_last_row_per_mask_name_witness :
  let cluster :=
    {| entry_name := "c.hdf5";
       entry_h5 := Some {| clusters :=
                     Some [{| com_x := Finite 0; com_y := Finite 0 |}] |};
       entry_image := @None (image Z) |} in
  let first := {| entry_name := "a.tif"; entry_h5 := None;
                  entry_image := Some (square_image 1 [[255]]) |} in
  let second := {| entry_name := "a.png"; entry_h5 := None;
                   entry_image := Some (square_image 1 [[0]]) |} in
  let listing := [cluster; first; second] in
  exists row : csv_row,
    snd (run_quantify_clusters_files Z (fun v => v) (fun img => img)
           listing ∅) !! "ca.csv"%string = Some (CsvFile csv_header row) /\
    csv_mask_area_px row = 0.
Proof.
  intros cluster first second listing.
  destruct (tables_hold_the_last_row_per_mask_name Z (fun v => v)
              (fun img => img) listing ∅ cluster eq_refl) as (_ & Hlast & _).
  specialize (Hlast "a"%string).
  assert (Hrow : exists row,
             last_row_named "a"
               (snd (run_quantify_clusters Z (fun v => v) (fun img => img)
                       (scan_directory listing) [])) = Some row /\
             csv_mask_area_px row = 0)
    by (eexists; split; [vm_compute; reflexivity | reflexivity]).
  destruct Hrow as (row & Hrow & Hpx).
  rewrite Hrow in Hlast.
  exists row. split; [exact Hlast | exact Hpx].
Defined.

(* ===================================================================== *)
(** ** Properties of the plotting helpers                                 *)
(* ===================================================================== *)

(** X20.  On the result of a count, the plot of the inside points
    without a guard raises [ValueError] exactly when no point is inside
    the mask, while the plot used by the pipeline draws whenever there
    is at least one cluster; the plot of the field of view raises
    exactly when there is no cluster. *)
Theorem plots_fail_on_empty_coordinate_lists :
  forall (mask : ndarray2) (cl : list ClusterPoint)
         (count : Z) (locs : list (Z * Z)),
    get_cluster_count mask cl = Ok (count, locs) ->
    (helper_plot_coordinates_mask mask locs = Raise ValueError <-> count = 0) /\
    (helper_plot_coordinates_mask mask locs = Ok tt <-> 0 < count) /\
    (cl <> [] -> visualize_cluster_centers_mask cl locs mask = Ok tt) /\
    (helper_plot_coordinates_FOV cl = Raise ValueError <-> cl = []).
Proof.
  intros mask cl count locs Hrun. unfold get_cluster_count in Hrun.
  apply count_loop_returns in Hrun as (pts & _ & _ & -> & ->).
  cbn [app]. rewrite Z.add_0_l.
  destruct (List.filter (selects_nonzero mask) (map rounded pts)) as [| p l];
    cbn [helper_plot_coordinates_mask length].
  - split; [split; [reflexivity | reflexivity] |].
    split; [split; [discriminate | lia] |].
    split; [destruct cl; [congruence | reflexivity] |].
    destruct cl; cbn; split; congruence.
  - split; [split; [discriminate | lia] |].
    split; [split; [lia | reflexivity] |].
    split; [destruct cl; [congruence | reflexivity] |].
    destruct cl; cbn; split; congruence.
Qed.

Lemma plots_fail_on_empty_coordinate_lists_witness :
  let mask := [[0; 0]; [0; 0]] in
  let cl := [finite_point (1, 0)%Q] in
  get_cluster_count mask cl = Ok (0, []) /\
  helper_plot_coordinates_mask mask [] = Raise ValueError /\
  visualize_cluster_centers_mask cl [] mask = Ok tt.
Proof.
  intros mask cl.
  assert (Hrun : get_cluster_count mask cl = Ok (0, [])) by reflexivity.
  destruct (plots_fail_on_empty_coordinate_lists mask cl 0 [] Hrun)
    as (Hmask & _ & Hvis & _).
  split; [exact Hrun |]. split.
  - now apply Hmask.
  - apply Hvis. discriminate.
Defined.
